(** * Daily Progress Tracker: a shallow embedding of the journaling core

    The development follows [src/1.4.3ReactTest/src1/App2.jsx] (the
    cloud-enabled variant) and the local-only variant in
    [src/unnamed/part_000].  The first part holds the definitions, one
    module per component of the application; the second part holds the
    theorems.

    Conventions of the embedding.
    - A JavaScript string is its sequence of UTF-16 code units, a
      [list Z] whose elements lie in [0, 65536).
    - A [Uint8Array] is a [list Z] whose elements lie in [0, 256).
    - A JavaScript number is [NaN], an infinity, or a finite value that
      is carried exactly as a rational: binary rounding, overflow and
      underflow of IEEE doubles are not part of the model, and [-0] is
      identified with [0] (the program never divides by a value that
      could be [-0]).
    - The clock, the random source and the host time zone are explicit
      arguments.
    - A rejected promise or a thrown exception is an [Err] result. *)

From Stdlib Require Import ZArith QArith Qround Qabs Qcanon Lqa.
From Stdlib Require Import List Bool Lia Ascii String.
From Stdlib Require Import DecimalString.
From Stdlib Require DecimalZ.
From stdpp Require Import base decidable countable gmap.
Import ListNotations.

Local Open Scope Z_scope.

(* ================================================================== *)
(** * Part I: definitions                                              *)
(* ================================================================== *)

(** ** JavaScript values used by the program *)
Module JS.

Definition jsstring := list Z.

(** A string literal of the source, as code units. *)
Definition js (s : string) : jsstring :=
  map (fun a => Z.of_N (N_of_ascii a)) (list_ascii_of_string s).

Definition is_codeunit (c : Z) : Prop := 0 <= c < 65536.
Definition wf_string (s : jsstring) : Prop := Forall is_codeunit s.

Definition is_byte (b : Z) : Prop := 0 <= b < 256.
Definition wf_bytes (bs : list Z) : Prop := Forall is_byte bs.

(** The double quote, [U+0022]. *)
Definition dq : Z := 34.

Definition string_eqb (a b : jsstring) : bool :=
  if decide (a = b) then true else false.

(** [Array.prototype.join] on an array of strings. *)
Fixpoint join (sep : jsstring) (xs : list jsstring) : jsstring :=
  match xs with
  | [] => []
  | [x] => x
  | x :: rest => x ++ sep ++ join sep rest
  end.

(** The global [replace] of the source: every double quote becomes
    two double quotes. *)
Definition replace_dq (s : jsstring) : jsstring :=
  flat_map (fun c => if c =? dq then [dq; dq] else [c]) s.

Inductive number :=
| NaN
| Inf (negative : bool)
| Fin (q : Q).

(** [ToBoolean] on a number: [NaN] and zero are falsy. *)
Definition truthy (x : number) : bool :=
  match x with
  | NaN => false
  | Inf _ => true
  | Fin q => negb (Qeq_bool q 0)
  end.

(** [x || d] on numbers. *)
Definition num_or (x d : number) : number := if truthy x then x else d.

(** [s || d] on strings: the empty string is falsy. *)
Definition str_or (s d : jsstring) : jsstring :=
  match s with [] => d | _ => s end.

Definition zero : number := Fin 0.

Definition Qneg (q : Q) : bool := if Qlt_le_dec q 0 then true else false.

(** [x + y] on numbers. *)
Definition num_add (x y : number) : number :=
  match x, y with
  | NaN, _ | _, NaN => NaN
  | Inf a, Inf b => if Bool.eqb a b then Inf a else NaN
  | Inf a, Fin _ => Inf a
  | Fin _, Inf b => Inf b
  | Fin p, Fin q => Fin (Qred (p + q))
  end.

(** [x * y] on numbers. *)
Definition num_mul (x y : number) : number :=
  match x, y with
  | NaN, _ | _, NaN => NaN
  | Inf a, Inf b => Inf (xorb a b)
  | Inf a, Fin q | Fin q, Inf a =>
      if Qeq_bool q 0 then NaN else Inf (xorb a (Qneg q))
  | Fin p, Fin q => Fin (Qred (p * q))
  end.

(** [x / y] on numbers. *)
Definition num_div (x y : number) : number :=
  match x, y with
  | NaN, _ | _, NaN => NaN
  | Inf _, Inf _ => NaN
  | Inf a, Fin q => Inf (xorb a (Qneg q))
  | Fin _, Inf _ => Fin 0
  | Fin p, Fin q =>
      if Qeq_bool q 0
      then (if Qeq_bool p 0 then NaN else Inf (Qneg p))
      else Fin (Qred (p / q))
  end.

(** The value of the digits that [x.toFixed(f)] prints for a finite
    [x] below [10^21] in magnitude: the multiple of [10^-f] nearest
    to [x], the one of larger magnitude when two are as near.  The
    engine rounds the binary value of [x]; where the exact value is
    half way between two multiples, the binary value may be on either
    side. *)
Definition toFixed_value (f : nat) (x : Q) : Q :=
  let scale := inject_Z (10 ^ Z.of_nat f) in
  let n := Qfloor (Qabs x * scale + (1 # 2)) in
  Qred ((if Qneg x then - inject_Z n else inject_Z n) / scale).

(** [+x.toFixed(f)]: the number read back from the printed string.
    At [10^21] and above [toFixed] prints the number as [toString]
    does, and so for [NaN] and the infinities; reading those back
    gives [x] again. *)
Definition plus_toFixed (f : nat) (x : number) : number :=
  match x with
  | NaN => NaN
  | Inf b => Inf b
  | Fin q =>
      if Qle_bool (inject_Z (10 ^ 21)) (Qabs q) then Fin q
      else Fin (toFixed_value f q)
  end.

(** Decimal digits of an integer, with a leading minus sign when it is
    negative. *)
Definition decimal (z : Z) : jsstring :=
  js (NilZero.string_of_int (Z.to_int z)).

(** [Number::toString] where the model renders it: [NaN], the
    infinities and the integers below [10^21] in magnitude.  Fractions
    are printed by the engine from the binary value and are left
    out. *)
Definition NumberToString (x : number) : option jsstring :=
  match x with
  | NaN => Some (js "NaN")
  | Inf false => Some (js "Infinity")
  | Inf true => Some (js "-Infinity")
  | Fin q =>
      let r := Qred q in
      if ((Qden r =? 1)%positive && (Z.abs (Qnum r) <? 10 ^ 21))%bool
      then Some (decimal (Qnum r)) else None
  end.

(** A thrown exception or a rejected promise. *)
Inductive result (E A : Type) :=
| Ok (a : A)
| Err (e : E).
Arguments Ok {E A} a.
Arguments Err {E A} e.

End JS.
Import JS.

(** ** [Number] applied to a string: the StringToNumber grammar *)
Module Num.

(** WhiteSpace and LineTerminator code points, which [Number] and
    [String.prototype.trim] strip. *)
Definition is_space (c : Z) : bool :=
  existsb (Z.eqb c)
    [ 9; 10; 11; 12; 13; 32; 160; 5760; 8232; 8233; 8239; 8287; 12288;
      65279 ]
  || ((8192 <=? c) && (c <=? 8202)).

Fixpoint trim_start (s : jsstring) : jsstring :=
  match s with
  | c :: rest => if is_space c then trim_start rest else s
  | [] => []
  end.

Definition trim (s : jsstring) : jsstring :=
  rev (trim_start (rev (trim_start s))).

Definition is_digit (c : Z) : bool := (48 <=? c) && (c <=? 57).

(** The longest prefix of decimal digits, and what follows it. *)
Fixpoint span_digits (s : jsstring) : jsstring * jsstring :=
  match s with
  | c :: rest =>
      if is_digit c
      then let (ds, tl) := span_digits rest in (c :: ds, tl)
      else ([], s)
  | [] => ([], [])
  end.

(** The value of a digit in a radix up to 16, when it is one. *)
Definition digit_value (radix c : Z) : option Z :=
  let v :=
    if (48 <=? c) && (c <=? 57) then c - 48
    else if (97 <=? c) && (c <=? 102) then c - 87
    else if (65 <=? c) && (c <=? 70) then c - 55
    else radix in
  if v <? radix then Some v else None.

(** The mathematical value of a digit string, most significant digit
    first; [None] when a character is not a digit of the radix. *)
Fixpoint digits_value (radix acc : Z) (s : jsstring) : option Z :=
  match s with
  | [] => Some acc
  | c :: rest =>
      match digit_value radix c with
      | Some v => digits_value radix (radix * acc + v) rest
      | None => None
      end
  end.

(** SignedInteger of the exponent part: the whole of [s]. *)
Definition signed_integer (s : jsstring) : option Z :=
  match s with
  | c :: ((_ :: _) as ds) =>
      if c =? 43 then digits_value 10 0 ds
      else if c =? 45 then option_map Z.opp (digits_value 10 0 ds)
      else digits_value 10 0 s
  | [_] => digits_value 10 0 s
  | [] => None
  end.

(** ExponentPart, optional: the whole of [s]. *)
Definition exponent_part (s : jsstring) : option Z :=
  match s with
  | [] => Some 0
  | c :: rest =>
      if (c =? 101) || (c =? 69) then signed_integer rest else None
  end.

(** StrUnsignedDecimalLiteral other than [Infinity]: digits, an
    optional fraction and an optional exponent, with a digit on at
    least one side of the dot. *)
Definition unsigned_decimal (s : jsstring) : option Q :=
  let (int_ds, after_int) := span_digits s in
  let '(frac_ds, after_frac, dotted) :=
    match after_int with
    | c :: tl =>
        if c =? 46
        then let (fs, tl') := span_digits tl in (fs, tl', true)
        else ([], after_int, false)
    | [] => ([], after_int, false)
    end in
  match int_ds, frac_ds with
  | [], [] => None
  | _, _ =>
      match digits_value 10 0 (int_ds ++ frac_ds), exponent_part after_frac with
      | Some m, Some e =>
          Some (Qred (inject_Z m * Qpower 10 (e - Z.of_nat (length frac_ds))))
      | _, _ => None
      end
  end.

Definition str_decimal (s : jsstring) : number :=
  let unsigned (t : jsstring) : number :=
    if string_eqb t (js "Infinity") then Inf false
    else match unsigned_decimal t with Some q => Fin q | None => NaN end in
  let negate (x : number) : number :=
    match x with
    | NaN => NaN
    | Inf b => Inf (negb b)
    | Fin q => Fin (Qred (- q))
    end in
  match s with
  | c :: t =>
      if c =? 43 then unsigned t
      else if c =? 45 then negate (unsigned t)
      else unsigned s
  | [] => unsigned s
  end.

(** NonDecimalIntegerLiteral: [0b], [0o] and [0x] prefixes, unsigned. *)
Definition non_decimal (s : jsstring) : option number :=
  match s with
  | z :: p :: ((_ :: _) as ds) =>
      let radix :=
        if negb (z =? 48) then None
        else if (p =? 98) || (p =? 66) then Some 2
        else if (p =? 111) || (p =? 79) then Some 8
        else if (p =? 120) || (p =? 88) then Some 16
        else None in
      match radix with
      | Some r =>
          Some match digits_value r 0 ds with
               | Some v => Fin (inject_Z v)
               | None => NaN
               end
      | None => None
      end
  | _ => None
  end.

(** [Number(s)] for a string [s]. *)
Definition StringToNumber (s : jsstring) : number :=
  match trim s with
  | [] => Fin 0
  | t => match non_decimal t with
         | Some x => x
         | None => str_decimal t
         end
  end.

(** A form field holds the string typed by the user, or the number
    that [getEmptyForm] put there. *)
Inductive value :=
| VNum (n : number)
| VStr (s : jsstring).

(** [Number(v)]. *)
Definition Number (v : value) : number :=
  match v with
  | VNum n => n
  | VStr s => StringToNumber s
  end.

End Num.

(** ** The [Date] object: time values, the calendar and the time zone

    A time value is the number of milliseconds since the epoch, in UTC.
    The calendar functions are those of the language standard.  The
    limit of [8.64e15] milliseconds on time values is not modelled: the
    statements below are about years from 0 to 9999. *)
Module Date.

Definition msPerDay : Z := 86400000.

Definition Day (t : Z) : Z := t / msPerDay.
Definition TimeWithinDay (t : Z) : Z := t mod msPerDay.

Definition DayFromYear (y : Z) : Z :=
  365 * (y - 1970) + (y - 1969) / 4 - (y - 1901) / 100 + (y - 1601) / 400.

Definition DaysInYear (y : Z) : Z :=
  if (y mod 4 =? 0) && (negb (y mod 100 =? 0) || (y mod 400 =? 0))
  then 366 else 365.

(** The year of a day number: the largest [y] with
    [DayFromYear y <= d].  The mean year has 146097/400 days, so the
    quotient is off by at most one. *)
Definition YearFromDay (d : Z) : Z :=
  let y := 1970 + d * 400 / 146097 in
  if d <? DayFromYear y then y - 1
  else if DayFromYear (y + 1) <=? d then y + 1
  else y.

Definition YearFromTime (t : Z) : Z := YearFromDay (Day t).

Definition InLeapYear (t : Z) : Z :=
  if DaysInYear (YearFromTime t) =? 366 then 1 else 0.

Definition DayWithinYear (t : Z) : Z :=
  Day t - DayFromYear (YearFromTime t).

(** The day of the year on which month [m] (0 to 11) starts, in a
    common year ([leap = 0]) or a leap year ([leap = 1]). *)
Definition month_start (leap m : Z) : Z :=
  match m with
  | 0 => 0
  | 1 => 31
  | 2 => 59 + leap
  | 3 => 90 + leap
  | 4 => 120 + leap
  | 5 => 151 + leap
  | 6 => 181 + leap
  | 7 => 212 + leap
  | 8 => 243 + leap
  | 9 => 273 + leap
  | 10 => 304 + leap
  | 11 => 334 + leap
  | _ => 365 + leap
  end.

Definition MonthFromTime (t : Z) : Z :=
  let d := DayWithinYear t in
  let l := InLeapYear t in
  if d <? 31 then 0
  else if d <? 59 + l then 1
  else if d <? 90 + l then 2
  else if d <? 120 + l then 3
  else if d <? 151 + l then 4
  else if d <? 181 + l then 5
  else if d <? 212 + l then 6
  else if d <? 243 + l then 7
  else if d <? 273 + l then 8
  else if d <? 304 + l then 9
  else if d <? 334 + l then 10
  else 11.

Definition DateFromTime (t : Z) : Z :=
  DayWithinYear t - month_start (InLeapYear t) (MonthFromTime t) + 1.

Definition HourFromTime (t : Z) : Z := (t / 3600000) mod 24.
Definition MinFromTime (t : Z) : Z := (t / 60000) mod 60.
Definition SecFromTime (t : Z) : Z := (t / 1000) mod 60.
Definition msFromTime (t : Z) : Z := t mod 1000.

(** [MakeDay]: the day number of the given date; months and dates out
    of range carry over. *)
Definition MakeDay (year month dt : Z) : Z :=
  let ym := year + month / 12 in
  let mn := month mod 12 in
  let leap := if DaysInYear ym =? 366 then 1 else 0 in
  DayFromYear ym + month_start leap mn + dt - 1.

Definition MakeDate (day time : Z) : Z := day * msPerDay + time.

(** The host time zone: the offset from UTC in milliseconds that is in
    force at a UTC time value ([LocalTZA(t, true)]) and the one by
    which a local time value is read ([LocalTZA(t, false)]). *)
Record TimeZone := mkTimeZone {
  offset_at_utc : Z -> Z;
  offset_at_local : Z -> Z
}.

Definition LocalTime (tz : TimeZone) (t : Z) : Z := t + offset_at_utc tz t.
Definition UTC (tz : TimeZone) (t : Z) : Z := t - offset_at_local tz t.

(** A zone whose offset never changes. *)
Definition fixed_zone (off : Z) : TimeZone :=
  {| offset_at_utc := fun _ => off; offset_at_local := fun _ => off |}.

Definition getDate (tz : TimeZone) (t : Z) : Z :=
  DateFromTime (LocalTime tz t).

Definition getMonth (tz : TimeZone) (t : Z) : Z :=
  MonthFromTime (LocalTime tz t).

(** [d.setDate(dt)]: the new time value of [d]. *)
Definition setDate (tz : TimeZone) (t dt : Z) : Z :=
  let t' := LocalTime tz t in
  UTC tz (MakeDate (MakeDay (YearFromTime t') (MonthFromTime t') dt)
                   (TimeWithinDay t')).

(** [d.setMonth(m)]: the new time value of [d]. *)
Definition setMonth (tz : TimeZone) (t m : Z) : Z :=
  let t' := LocalTime tz t in
  UTC tz (MakeDate (MakeDay (YearFromTime t') m (DateFromTime t'))
                   (TimeWithinDay t')).

(** The last [w] decimal digits of [n]: the zero-padded decimal string
    of [n] when [0 <= n < 10^w]. *)
Fixpoint fixed_digits (w : nat) (n : Z) : jsstring :=
  match w with
  | O => []
  | S w' => fixed_digits w' (n / 10) ++ [48 + n mod 10]
  end.

(** [d.toISOString()]. *)
Definition toISOString (t : Z) : jsstring :=
  let y := YearFromTime t in
  (if (0 <=? y) && (y <=? 9999) then fixed_digits 4 y
   else (if y <? 0 then js "-" else js "+") ++ fixed_digits 6 (Z.abs y))
  ++ js "-" ++ fixed_digits 2 (MonthFromTime t + 1)
  ++ js "-" ++ fixed_digits 2 (DateFromTime t)
  ++ js "T" ++ fixed_digits 2 (HourFromTime t)
  ++ js ":" ++ fixed_digits 2 (MinFromTime t)
  ++ js ":" ++ fixed_digits 2 (SecFromTime t)
  ++ js "." ++ fixed_digits 3 (msFromTime t)
  ++ js "Z".

(** [s.slice(0, 10)]. *)
Definition slice_0_10 (s : jsstring) : jsstring := firstn 10 s.

(** The days of month [m] (0 to 11) of year [y]. *)
Definition DaysInMonth (y m : Z) : Z :=
  let leap := if DaysInYear y =? 366 then 1 else 0 in
  month_start leap (m + 1) - month_start leap m.

(** [new Date(s)] for the date-only form [YYYY-MM-DD], which is read as
    midnight UTC.  [None] is the invalid date, whose time value is
    [NaN].  The other forms that an engine accepts are not modelled:
    an entry gets its date from a date input, which yields this
    form. *)
Definition parse_date (s : jsstring) : option Z :=
  match s with
  | [y1; y2; y3; y4; h1; m1; m2; h2; d1; d2] =>
      match Num.digits_value 10 0 [y1; y2; y3; y4],
            Num.digits_value 10 0 [m1; m2],
            Num.digits_value 10 0 [d1; d2] with
      | Some y, Some m, Some d =>
          if (h1 =? 45) && (h2 =? 45)
             && (1 <=? m) && (m <=? 12) && (1 <=? d)
             && (d <=? DaysInMonth y (m - 1))
          then Some (MakeDate (MakeDay y (m - 1) d) 0)
          else None
      | _, _, _ => None
      end
  | _ => None
  end.

End Date.

(** ** The journal entry, as [addEntry] builds it *)
Record entry := mkEntry {
  id : jsstring;
  date : jsstring;
  plannedTasks : number;
  completedTasks : number;
  tasksNotes : jsstring;
  wins : jsstring;
  challenges : jsstring;
  mood : number;
  tags : list jsstring;
  minutesFocused : number;
  createdAt : jsstring
}.

(** ** Basic analytics: the [analytics] memo of both variants *)
Module Analytics.

(** [entries.reduce((s, r) => s + (r.field || 0), 0)]. *)
Definition total (field : entry -> number) (entries : list entry) : number :=
  fold_left (fun s r => num_add s (num_or (field r) zero)) entries zero.

Definition days (entries : list entry) : number :=
  Fin (inject_Z (Z.of_nat (length entries))).

Definition totalPlanned : list entry -> number := total plannedTasks.
Definition totalCompleted : list entry -> number := total completedTasks.
Definition totalFocus : list entry -> number := total minutesFocused.

Definition avgTasksPerDay (entries : list entry) : number :=
  if truthy (days entries)
  then plus_toFixed 2 (num_div (totalCompleted entries) (days entries))
  else zero.

(** [None] is [null]. *)
Definition successRate (entries : list entry) : option number :=
  if truthy (totalPlanned entries)
  then Some (plus_toFixed 1
               (num_mul (num_div (totalCompleted entries) (totalPlanned entries))
                        (Fin 100)))
  else None.

Definition avgMood (entries : list entry) : option number :=
  if truthy (days entries)
  then Some (plus_toFixed 2 (num_div (total mood entries) (days entries)))
  else None.

(** [arr.slice(-n)]. *)
Definition last_n {A} (n : nat) (l : list A) : list A :=
  skipn (length l - n) l.

(** The trend series of App2.jsx; the local variant takes the first 30
    entries instead of the first 60. *)
Definition trend (entries : list entry) : list (jsstring * number) :=
  last_n 30 (map (fun r => (date r, completedTasks r))
                 (rev (firstn 60 entries))).

End Analytics.

(** ** Habits: [markHabitLocal] and [calculateStreak] *)
Module Habits.
Import Date.

Record habit := mkHabit {
  id : jsstring;
  name : jsstring;
  streak : nat;
  history : list jsstring;
  last_completed : option jsstring
}.

(** [new Date().toISOString().slice(0, 10)] at time [now]. *)
Definition date_key (now : Z) : jsstring := slice_0_10 (toISOString now).

(** The loop of [calculateStreak].  It ends when the key of the cursor
    is missing from the set; [None] is a run that has not ended when
    the fuel is spent. *)
Fixpoint streak_loop (fuel : nat) (tz : TimeZone) (days : gset (list Z))
    (streak : nat) (cursor : Z) : option nat :=
  match fuel with
  | O => None
  | S fuel' =>
      if decide (date_key cursor ∈ days)
      then streak_loop fuel' tz days (S streak)
             (setDate tz cursor (getDate tz cursor - 1))
      else Some streak
  end.

Definition calculateStreak (fuel : nat) (tz : TimeZone) (now : Z)
    (history : list jsstring) : option nat :=
  streak_loop fuel tz (list_to_set history) 0%nat now.

(** The habit that the [onAdd] handler appends in local mode. *)
Definition new_habit (now : Z) (name : jsstring) : habit :=
  {| id := decimal now; name := name; streak := 0%nat; history := [];
     last_completed := None |}.

Definition addHabitLocal (now : Z) (name : jsstring) (h : list habit)
  : list habit :=
  h ++ [new_habit now name].

(** The callback that [markHabitLocal] maps over the habits.  Both
    reads of the clock, here and in [calculateStreak], are the one
    time value [now]. *)
Definition mark_one (fuel : nat) (tz : TimeZone) (now : Z)
    (habitId : jsstring) (hb : habit) : option habit :=
  if negb (string_eqb (id hb) habitId) then Some hb
  else
    let date := date_key now in
    if existsb (string_eqb date) (history hb) then Some hb
    else
      let history' := history hb ++ [date] in
      match calculateStreak fuel tz now history' with
      | Some streak' =>
          Some {| id := id hb; name := name hb; streak := streak';
                  history := history'; last_completed := Some date |}
      | None => None
      end.

Definition markHabitLocal (fuel : nat) (tz : TimeZone) (now : Z)
    (habitId : jsstring) (h : list habit) : option (list habit) :=
  mapM (mark_one fuel tz now habitId) h.

(** One user action on the habits of the local mode: a habit is added,
    or a habit is marked done and the run of [calculateStreak] ends. *)
Inductive step (tz : TimeZone) : list habit -> list habit -> Prop :=
| step_add (now : Z) (name : jsstring) (h : list habit) :
    step tz h (addHabitLocal now name h)
| step_mark (fuel : nat) (now : Z) (habitId : jsstring) (h h' : list habit) :
    markHabitLocal fuel tz now habitId h = Some h' ->
    step tz h h'.

(** The states that the actions reach from the empty list. *)
Definition reachable (tz : TimeZone) (h : list habit) : Prop :=
  rtc (step tz) [] h.

End Habits.

(** ** Reports: the window and the selection of [generateReport] *)
Module Report.
Import Date.

(** [start], from the two [if]s on [range]. *)
Definition start (tz : TimeZone) (now : Z) (range : jsstring) : Z :=
  let start := now in
  let start :=
    if string_eqb range (js "weekly")
    then setDate tz start (getDate tz now - 6) else start in
  let start :=
    if string_eqb range (js "monthly")
    then setMonth tz start (getMonth tz now - 1) else start in
  start.

(** The filter predicate; a comparison with an invalid date is
    false. *)
Definition in_window (start now : Z) (e : entry) : bool :=
  match parse_date (date e) with
  | Some t => (start <=? t) && (t <=? now)
  | None => false
  end.

Definition selected (tz : TimeZone) (now : Z) (range : jsstring)
    (entries : list entry) : list entry :=
  List.filter (in_window (start tz now range) now) entries.

Definition totalDays (tz : TimeZone) (now : Z) (range : jsstring)
    (entries : list entry) : nat :=
  length (selected tz now range entries).

Definition totalPlanned (tz : TimeZone) (now : Z) (range : jsstring)
    (entries : list entry) : number :=
  Analytics.total plannedTasks (selected tz now range entries).

Definition totalCompleted (tz : TimeZone) (now : Z) (range : jsstring)
    (entries : list entry) : number :=
  Analytics.total completedTasks (selected tz now range entries).

End Report.

(** ** The entry form: [getEmptyForm] and [addEntry] *)
Module Form.
Import Num Date.

Record form := mkForm {
  f_date : jsstring;
  f_plannedTasks : jsstring;
  f_completedTasks : jsstring;
  f_tasksNotes : jsstring;
  f_wins : jsstring;
  f_challenges : jsstring;
  f_mood : value;
  f_tags : jsstring;
  f_minutesFocused : jsstring
}.

Definition getEmptyForm (now : Z) : form :=
  {| f_date := slice_0_10 (toISOString now);
     f_plannedTasks := []; f_completedTasks := []; f_tasksNotes := [];
     f_wins := []; f_challenges := []; f_mood := VNum (Fin 3);
     f_tags := []; f_minutesFocused := [] |}.

(** [s.split(sep)] for a separator of one code unit. *)
Fixpoint split (sep : Z) (s : jsstring) : list jsstring :=
  match s with
  | [] => [[]]
  | c :: rest =>
      if c =? sep then [] :: split sep rest
      else match split sep rest with
           | piece :: pieces => (c :: piece) :: pieces
           | [] => [[c]]
           end
  end.

(** [.filter(Boolean)] on strings keeps the non-empty ones. *)
Definition nonempty (s : jsstring) : bool :=
  match s with [] => false | _ => true end.

(** The entry built by [addEntry]; [now] is the reading of the
    clock. *)
Definition newEntry (now : Z) (f : form) : entry :=
  {| id := decimal now;
     date := f_date f;
     plannedTasks := num_or (StringToNumber (f_plannedTasks f)) (Fin 0);
     completedTasks := num_or (StringToNumber (f_completedTasks f)) (Fin 0);
     tasksNotes := f_tasksNotes f;
     wins := f_wins f;
     challenges := f_challenges f;
     mood := num_or (Number (f_mood f)) (Fin 3);
     tags := List.filter nonempty (map trim (split 44 (f_tags f)));
     minutesFocused := num_or (StringToNumber (f_minutesFocused f)) (Fin 0);
     createdAt := toISOString now |}.

(** [addEntry]: the new list of entries and the reset form. *)
Definition addEntry (now : Z) (f : form) (entries : list entry)
  : list entry * form :=
  (newEntry now f :: entries, getEmptyForm now).

End Form.

(** ** The backup codec: [deriveKey], [encryptString], [decryptString]

    The text encoder and decoder and the base64 functions are those of
    the platform standards.  AES-GCM itself is an interface. *)
Module Codec.

Definition is_high (c : Z) : bool := (0xD800 <=? c) && (c <=? 0xDBFF).
Definition is_low (c : Z) : bool := (0xDC00 <=? c) && (c <=? 0xDFFF).

(** The scalar values of a string: a surrogate pair is one code point,
    a surrogate without its partner becomes [U+FFFD]. *)
Fixpoint scalar_values (s : jsstring) : list Z :=
  match s with
  | [] => []
  | c :: rest =>
      if is_high c then
        match rest with
        | d :: rest' =>
            if is_low d
            then (0x10000 + Z.shiftl (c - 0xD800) 10 + (d - 0xDC00))
                   :: scalar_values rest'
            else 0xFFFD :: scalar_values rest
        | [] => [0xFFFD]
        end
      else if is_low c then 0xFFFD :: scalar_values rest
      else c :: scalar_values rest
  end.

(** The UTF-8 bytes of one scalar value. *)
Definition utf8_bytes (cp : Z) : list Z :=
  if cp <=? 0x7F then [cp]
  else if cp <=? 0x7FF then
    [ Z.shiftr cp 6 + 0xC0; Z.lor 0x80 (Z.land cp 0x3F) ]
  else if cp <=? 0xFFFF then
    [ Z.shiftr cp 12 + 0xE0;
      Z.lor 0x80 (Z.land (Z.shiftr cp 6) 0x3F);
      Z.lor 0x80 (Z.land cp 0x3F) ]
  else
    [ Z.shiftr cp 18 + 0xF0;
      Z.lor 0x80 (Z.land (Z.shiftr cp 12) 0x3F);
      Z.lor 0x80 (Z.land (Z.shiftr cp 6) 0x3F);
      Z.lor 0x80 (Z.land cp 0x3F) ].

(** [new TextEncoder().encode(s)]. *)
Definition TextEncoder_encode (s : jsstring) : list Z :=
  flat_map utf8_bytes (scalar_values s).

(** The state of the UTF-8 decoder. *)
Record decoder := mkDecoder {
  code_point : Z;
  bytes_seen : Z;
  bytes_needed : Z;
  lower_boundary : Z;
  upper_boundary : Z
}.

Definition decoder_start : decoder :=
  {| code_point := 0; bytes_seen := 0; bytes_needed := 0;
     lower_boundary := 0x80; upper_boundary := 0xBF |}.

(** A byte read when no byte is needed: the new state and the code
    points put out. *)
Definition lead_byte (b : Z) : decoder * list Z :=
  if (0 <=? b) && (b <=? 0x7F) then (decoder_start, [b])
  else if (0xC2 <=? b) && (b <=? 0xDF) then
    ({| code_point := Z.land b 0x1F; bytes_seen := 0; bytes_needed := 1;
        lower_boundary := 0x80; upper_boundary := 0xBF |}, [])
  else if (0xE0 <=? b) && (b <=? 0xEF) then
    ({| code_point := Z.land b 0xF; bytes_seen := 0; bytes_needed := 2;
        lower_boundary := if b =? 0xE0 then 0xA0 else 0x80;
        upper_boundary := if b =? 0xED then 0x9F else 0xBF |}, [])
  else if (0xF0 <=? b) && (b <=? 0xF4) then
    ({| code_point := Z.land b 0x7; bytes_seen := 0; bytes_needed := 3;
        lower_boundary := if b =? 0xF0 then 0x90 else 0x80;
        upper_boundary := if b =? 0xF4 then 0x8F else 0xBF |}, [])
  else (decoder_start, [0xFFFD]).

(** One byte through the decoder.  A byte out of the boundaries ends
    the sequence with an error and is read again as a lead byte. *)
Definition decode_byte (st : decoder) (b : Z) : decoder * list Z :=
  if bytes_needed st =? 0 then lead_byte b
  else if (b <? lower_boundary st) || (upper_boundary st <? b) then
    let (st', out) := lead_byte b in (st', 0xFFFD :: out)
  else
    let cp := Z.lor (Z.shiftl (code_point st) 6) (Z.land b 0x3F) in
    if bytes_seen st + 1 =? bytes_needed st then (decoder_start, [cp])
    else ({| code_point := cp; bytes_seen := bytes_seen st + 1;
             bytes_needed := bytes_needed st;
             lower_boundary := 0x80; upper_boundary := 0xBF |}, []).

Fixpoint decode_from (st : decoder) (bytes : list Z) : list Z :=
  match bytes with
  | [] => if bytes_needed st =? 0 then [] else [0xFFFD]
  | b :: rest =>
      let (st', out) := decode_byte st b in out ++ decode_from st' rest
  end.

Definition utf8_decode (bytes : list Z) : list Z :=
  decode_from decoder_start bytes.

(** The code units of one code point. *)
Definition utf16_units (cp : Z) : jsstring :=
  if cp <? 0x10000 then [cp]
  else [ 0xD800 + Z.shiftr (cp - 0x10000) 10;
         0xDC00 + Z.land (cp - 0x10000) 0x3FF ].

(** [new TextDecoder().decode(bytes)]: not fatal, and a byte order
    mark at the start is dropped. *)
Definition TextDecoder_decode (bytes : list Z) : jsstring :=
  let cps := utf8_decode bytes in
  let cps := match cps with
             | c :: rest => if c =? 0xFEFF then rest else cps
             | [] => cps
             end in
  flat_map utf16_units cps.

(** The base64 alphabet. *)
Definition b64_char (i : Z) : Z :=
  if i <? 26 then 65 + i
  else if i <? 52 then 71 + i
  else if i <? 62 then i - 4
  else if i =? 62 then 43
  else 47.

Definition b64_index (c : Z) : option Z :=
  if (65 <=? c) && (c <=? 90) then Some (c - 65)
  else if (97 <=? c) && (c <=? 122) then Some (c - 71)
  else if (48 <=? c) && (c <=? 57) then Some (c + 4)
  else if c =? 43 then Some 62
  else if c =? 47 then Some 63
  else None.

Fixpoint b64_encode (bs : list Z) : jsstring :=
  match bs with
  | a :: b :: c :: rest =>
      [ b64_char (Z.shiftr a 2);
        b64_char (Z.lor (Z.shiftl (Z.land a 3) 4) (Z.shiftr b 4));
        b64_char (Z.lor (Z.shiftl (Z.land b 15) 2) (Z.shiftr c 6));
        b64_char (Z.land c 63) ] ++ b64_encode rest
  | [a; b] =>
      [ b64_char (Z.shiftr a 2);
        b64_char (Z.lor (Z.shiftl (Z.land a 3) 4) (Z.shiftr b 4));
        b64_char (Z.shiftl (Z.land b 15) 2);
        61 ]
  | [a] =>
      [ b64_char (Z.shiftr a 2); b64_char (Z.shiftl (Z.land a 3) 4); 61; 61 ]
  | [] => []
  end.

(** [btoa(s)]: [None] is the InvalidCharacterError thrown for a code
    unit above 255. *)
Definition btoa (s : jsstring) : option jsstring :=
  if forallb (fun c => (0 <=? c) && (c <=? 255)) s
  then Some (b64_encode s) else None.

Definition is_ascii_whitespace (c : Z) : bool :=
  existsb (Z.eqb c) [9; 10; 12; 13; 32].

(** One or two padding characters at the end of a string whose length is
    a multiple of four are removed. *)
Definition strip_padding (s : jsstring) : jsstring :=
  if Z.of_nat (length s) mod 4 =? 0 then
    match rev s with
    | p :: q :: r =>
        if (p =? 61) && (q =? 61) then rev r
        else if p =? 61 then rev (q :: r) else s
    | [p] => if p =? 61 then [] else s
    | [] => s
    end
  else s.

Fixpoint sextets (s : jsstring) : option (list Z) :=
  match s with
  | [] => Some []
  | c :: rest =>
      match b64_index c, sextets rest with
      | Some i, Some tl => Some (i :: tl)
      | _, _ => None
      end
  end.

(** The bytes of a run of six-bit groups; the last 12 or 18 bits give
    one or two bytes. *)
Fixpoint bytes_of_sextets (xs : list Z) : list Z :=
  match xs with
  | a :: b :: c :: d :: rest =>
      let n := Z.lor (Z.lor (Z.lor (Z.shiftl a 18) (Z.shiftl b 12))
                            (Z.shiftl c 6)) d in
      [ Z.land (Z.shiftr n 16) 255; Z.land (Z.shiftr n 8) 255; Z.land n 255 ]
        ++ bytes_of_sextets rest
  | [a; b; c] =>
      let n := Z.shiftr (Z.lor (Z.lor (Z.shiftl a 12) (Z.shiftl b 6)) c) 2 in
      [ Z.land (Z.shiftr n 8) 255; Z.land n 255 ]
  | [a; b] => [ Z.land (Z.shiftr (Z.lor (Z.shiftl a 6) b) 4) 255 ]
  | _ => []
  end.

(** [atob(s)], the forgiving base64 decoding: [None] is the
    InvalidCharacterError. *)
Definition atob (s : jsstring) : option jsstring :=
  let data := List.filter (fun c => negb (is_ascii_whitespace c)) s in
  let data := strip_padding data in
  if Z.of_nat (length data) mod 4 =? 1 then None
  else option_map bytes_of_sextets (sextets data).

(** [String.fromCharCode(...bytes)]: each argument is taken modulo
    [2^16].  The limit of an engine on the number of arguments is not
    modelled. *)
Definition String_fromCharCode (codes : list Z) : jsstring :=
  map (fun c => c mod 65536) codes.

(** [Uint8Array.from(s, (c) => c.charCodeAt(0))]: each code unit is
    stored modulo 256. *)
Definition Uint8Array_from (s : jsstring) : list Z :=
  map (fun c => c mod 256) s.

(** AES-GCM and PBKDF2 of the Web Crypto API.  [subtle_decrypt] gives
    [None] when the promise is rejected with an OperationError, as it
    is when the tag does not match. *)
Record AesGcm := mkAesGcm {
  CryptoKey : Type;
  subtle_deriveKey : jsstring -> jsstring -> CryptoKey;
  subtle_encrypt : CryptoKey -> list Z -> list Z -> list Z;
  subtle_decrypt : CryptoKey -> list Z -> list Z -> option (list Z)
}.

(** What the standard promises of the cipher: the ciphertext is a
    buffer of bytes, and decryption with the key and the nonce of the
    encryption gives the plaintext back. *)
Record AesGcmLaws (A : AesGcm) : Prop := mkAesGcmLaws {
  encrypt_bytes :
    forall (k : CryptoKey A) (iv pt : list Z),
      wf_bytes (subtle_encrypt A k iv pt);
  decrypt_encrypt :
    forall (k : CryptoKey A) (iv pt : list Z),
      wf_bytes iv -> wf_bytes pt ->
      subtle_decrypt A k iv (subtle_encrypt A k iv pt) = Some pt
}.

Inductive error :=
| InvalidCharacterError
| OperationError.

(** [deriveKey(password, salt)]. *)
Definition deriveKey (A : AesGcm) (password salt : jsstring) : CryptoKey A :=
  subtle_deriveKey A password salt.

(** [encryptString(key, plaintext)]; [random] is the 12 bytes that
    [crypto.getRandomValues] writes. *)
Definition encryptString (A : AesGcm) (random : list Z) (key : CryptoKey A)
    (plaintext : jsstring) : result error jsstring :=
  let iv := random in
  let ct := subtle_encrypt A key iv (TextEncoder_encode plaintext) in
  let combined := iv ++ ct in
  match btoa (String_fromCharCode combined) with
  | Some b64 => Ok b64
  | None => Err InvalidCharacterError
  end.

(** [decryptString(key, dataB64)]. *)
Definition decryptString (A : AesGcm) (key : CryptoKey A)
    (dataB64 : jsstring) : result error jsstring :=
  match atob dataB64 with
  | None => Err InvalidCharacterError
  | Some bin =>
      let raw := Uint8Array_from bin in
      let iv := firstn 12 raw in
      let ct := skipn 12 raw in
      match subtle_decrypt A key iv ct with
      | Some pt => Ok (TextDecoder_decode pt)
      | None => Err OperationError
      end
  end.

(** The state that a restore replaces. *)
Record snapshot := mkSnapshot {
  snap_entries : list entry;
  snap_habits : list Habits.habit
}.

(** What [downloadBackup] can catch: the error of the backend, the
    errors of [decryptString], and the error of [JSON.parse] or of the
    reading of the parsed value. *)
Inductive failure :=
| BackendError (message : jsstring)
| CryptoError (e : error)
| ParseError.

Inductive alert :=
| NotConfigured
| SignInFirst
| EnterPassphrase
| BackupRestored
| RestoreFailed (f : failure).

(** [downloadBackup].  [configured] tells whether the client exists,
    [user] is the signed-in identity, [key] the content of
    [cryptoKeyRef], [fetch] the answer of the backend for the identity
    and [parse] is [JSON.parse] followed by the reading of the two
    fields, each of which may be absent. *)
Definition downloadBackup (A : AesGcm) (configured : bool)
    (user : option jsstring) (key : option (CryptoKey A))
    (fetch : jsstring -> result jsstring jsstring)
    (parse : jsstring ->
             option (option (list entry) * option (list Habits.habit)))
    (st : snapshot) : snapshot * alert :=
  if negb configured then (st, NotConfigured)
  else match user, key with
  | None, _ => (st, SignInFirst)
  | Some _, None => (st, EnterPassphrase)
  | Some uid, Some k =>
      match fetch uid with
      | Err message => (st, RestoreFailed (BackendError message))
      | Ok payload =>
          match decryptString A k payload with
          | Err e => (st, RestoreFailed (CryptoError e))
          | Ok decrypted =>
              match parse decrypted with
              | None => (st, RestoreFailed ParseError)
              | Some (es, hs) =>
                  ({| snap_entries :=
                        match es with Some l => l | None => snap_entries st end;
                      snap_habits :=
                        match hs with Some l => l | None => snap_habits st end |},
                   BackupRestored)
              end
          end
      end
  end.

End Codec.

(** ** CSV helper: [toCSV] of App2.jsx, [exportCSV] of the local variant *)
Module Csv.

Definition header : list jsstring :=
  [ js "date"; js "plannedTasks"; js "completedTasks"; js "tasksNotes";
    js "wins"; js "challenges"; js "mood"; js "minutesFocused";
    js "tags"; js "createdAt" ].

(** The template literal that wraps a text in double quotes. *)
Definition quoted (s : jsstring) : jsstring := [dq] ++ s ++ [dq].

(** One element of [rows].  [show] is [Number::toString], which
    [Array.prototype.join] applies to the numeric cells. *)
Definition row (show : number -> jsstring) (r : entry) : list jsstring :=
  [ date r;
    show (plannedTasks r);
    show (completedTasks r);
    quoted (replace_dq (str_or (tasksNotes r) []));
    quoted (replace_dq (str_or (wins r) []));
    quoted (replace_dq (str_or (challenges r) []));
    show (mood r);
    show (minutesFocused r);
    quoted (join (js ", ") (tags r));
    createdAt r ].

Definition toCSV (show : number -> jsstring) (entries : list entry)
  : jsstring :=
  join (js (String "010" EmptyString))
       (map (join (js ",")) (header :: map (row show) entries)).

End Csv.

(** ** Vocabulary and sample data for the statements about CSV export *)
Module CsvSpec.
Import Csv.

Definition newline : jsstring := js (String "010" EmptyString).

(** The numeric cells of the examples are integers. *)
Definition show (x : number) : jsstring :=
  match NumberToString x with Some s => s | None => [] end.

Definition header_line : jsstring :=
  js "date,plannedTasks,completedTasks,tasksNotes,wins,challenges,mood,minutesFocused,tags,createdAt".

(** Undoing the doubling: a reader of a quoted CSV cell. *)
Fixpoint undouble (s : jsstring) : jsstring :=
  match s with
  | c :: ((d :: rest) as tl) =>
      if ((c =? dq) && (d =? dq))%bool then dq :: undouble rest
      else c :: undouble tl
  | _ => s
  end.

Definition sample (notes : jsstring) (tgs : list jsstring) : entry :=
  {| id := js "1"; date := js "2024-05-04";
     plannedTasks := Fin 5; completedTasks := Fin 3;
     tasksNotes := notes; wins := js "w"; challenges := [];
     mood := Fin 4; tags := tgs; minutesFocused := Fin 25;
     createdAt := js "2024-05-04T10:00:00.000Z" |}.

Definition he_said_hi : jsstring := js "He said " ++ [dq] ++ js "hi" ++ [dq].

End CsvSpec.

(** ** Vocabulary and sample data for the statements about the entry form *)
Module FormSpec.
Import Num Form.

Definition blank : form :=
  {| f_date := js "2024-05-10"; f_plannedTasks := []; f_completedTasks := [];
     f_tasksNotes := []; f_wins := []; f_challenges := [];
     f_mood := VNum (Fin 3); f_tags := []; f_minutesFocused := [] |}.

Definition with_counts (p c : jsstring) : form :=
  {| f_date := f_date blank; f_plannedTasks := p; f_completedTasks := c;
     f_tasksNotes := []; f_wins := []; f_challenges := [];
     f_mood := f_mood blank; f_tags := []; f_minutesFocused := [] |}.

Definition with_mood (m : value) : form :=
  {| f_date := f_date blank; f_plannedTasks := []; f_completedTasks := [];
     f_tasksNotes := []; f_wins := []; f_challenges := [];
     f_mood := m; f_tags := js "coding, health,, "; f_minutesFocused := [] |}.

(** A non-negative integer value. *)
Definition nonneg_integer (x : number) : Prop :=
  exists n : Z, 0 <= n /\ x = Fin (inject_Z n).

End FormSpec.

(** ** Vocabulary and sample data for the statements about analytics *)
Module AnalyticsSpec.
Import Analytics.
Local Open Scope Q_scope.

Definition counts (p c : Q) : entry :=
  {| id := []; date := js "2024-05-04"; plannedTasks := Fin p;
     completedTasks := Fin c; tasksNotes := []; wins := [];
     challenges := []; mood := Fin 3; tags := [];
     minutesFocused := Fin 0; createdAt := [] |}.

(** A field that is not an infinity: a finite number, or [NaN], which
    the guard of the sum replaces by 0. *)
Definition not_infinite (x : number) : Prop :=
  match x with Inf _ => False | _ => True end.

Definition finite_counts (entries : list entry) : Prop :=
  Forall (fun r => not_infinite (plannedTasks r) /\
                   not_infinite (completedTasks r)) entries.

(** What an entry adds to a sum. *)
Definition addend (x : number) : Q :=
  match num_or x zero with Fin q => q | _ => 0 end.

Definition Qsum (field : entry -> number) (entries : list entry) : Q :=
  fold_right (fun r s => addend (field r) + s) 0 entries.

End AnalyticsSpec.

(** ** Vocabulary and sample data for the statements about habits *)
Module HabitSpec.
Import Date Habits.

(** Europe/Berlin around the start of summer time on 31 March 2024:
    the offset goes from one hour to two hours at 01:00 UTC, and a
    local time before 03:00 of that day is read with the offset of
    one hour. *)
Definition berlin_spring_2024 : TimeZone :=
  {| offset_at_utc := fun t => if t <? 1711846800000 then 3600000 else 7200000;
     offset_at_local :=
       fun t => if t <? 1711846800000 + 7200000 then 3600000 else 7200000 |}.

Definition utc : TimeZone := fixed_zone 0.

(** [k] is the number of consecutive calendar days, ending at the day
    of [now], whose keys are in the history. *)
Definition consecutive_days (history : list jsstring) (now : Z) (k : nat)
  : Prop :=
  (forall i : nat, (i < k)%nat ->
     In (date_key (now - Z.of_nat i * msPerDay)) history) /\
  ~ In (date_key (now - Z.of_nat k * msPerDay)) history.

(** The cached streak is the value that [calculateStreak] gave when
    the habit was last marked; a habit never marked has streak 0 and
    an empty history. *)
Definition cache_ok (tz : TimeZone) (hb : habit) : Prop :=
  match last_completed hb with
  | None => history hb = [] /\ streak hb = 0%nat
  | Some d =>
      exists (fuel : nat) (now : Z),
        d = date_key now /\
        calculateStreak fuel tz now (history hb) = Some (streak hb)
  end.

(** A habit added and marked at noon UTC on 9 May 2024, seen on the
    next day. *)
Definition noon_9_may : Z := 1715256000000.

Definition marked_once : list habit :=
  [ {| id := js "1715256000000"; name := js "read"; streak := 1%nat;
       history := [js "2024-05-09"];
       last_completed := Some (js "2024-05-09") |} ].

End HabitSpec.

(** ** Vocabulary and sample data for the statements about reports *)
Module ReportSpec.
Import Date Report.

Definition dated (d : jsstring) : entry :=
  {| id := []; date := d; plannedTasks := Fin 1; completedTasks := Fin 1;
     tasksNotes := []; wins := []; challenges := []; mood := Fin 3;
     tags := []; minutesFocused := Fin 25; createdAt := [] |}.

Definition utc : TimeZone := fixed_zone 0.

End ReportSpec.

(** ** Vocabulary and sample data for the statements about the backup codec *)
Module CodecSpec.
Import Codec.

(** The six-bit groups that [b64_encode] prints, and its padding. *)
Fixpoint groups (bs : list Z) : list Z :=
  match bs with
  | a :: b :: c :: rest =>
      [ a / 4; a mod 4 * 16 + b / 16; b mod 16 * 4 + c / 64; c mod 64 ]
        ++ groups rest
  | [a; b] => [ a / 4; a mod 4 * 16 + b / 16; b mod 16 * 4 ]
  | [a] => [ a / 4; a mod 4 * 16 ]
  | [] => []
  end.

Fixpoint padding (bs : list Z) : jsstring :=
  match bs with
  | _ :: _ :: _ :: rest => padding rest
  | [_; _] => [61]
  | [_] => [61; 61]
  | [] => []
  end.

(** A Unicode scalar value: a code point that is not a surrogate. *)
Definition scalar (cp : Z) : Prop :=
  0 <= cp <= 0x10FFFF /\ ~ (0xD800 <= cp <= 0xDFFF).

(** A string without a lone surrogate. *)
Inductive well_formed : jsstring -> Prop :=
| wf_empty : well_formed []
| wf_unit (c : Z) (s : jsstring) :
    0 <= c < 0x10000 -> ~ (0xD800 <= c <= 0xDFFF) ->
    well_formed s -> well_formed (c :: s)
| wf_pair (h l : Z) (s : jsstring) :
    0xD800 <= h <= 0xDBFF -> 0xDC00 <= l <= 0xDFFF ->
    well_formed s -> well_formed (h :: l :: s).

(** The first code unit is not the byte order mark. *)
Definition no_bom (s : jsstring) : Prop :=
  match s with
  | c :: _ => c <> 0xFEFF
  | [] => True
  end.

(** A stand-in for AES-GCM where a statement needs a cipher to run:
    each byte is shifted by the key, and the key is the tag. *)
Definition shift_cipher : AesGcm :=
  {| CryptoKey := Z;
     subtle_deriveKey := fun password salt =>
       fold_left Z.add (password ++ salt) 0 mod 256;
     subtle_encrypt := fun k iv pt =>
       map (fun b => (b + k) mod 256) pt ++ [k mod 256];
     subtle_decrypt := fun k iv ct =>
       match rev ct with
       | tag :: body =>
           if tag =? k mod 256
           then Some (map (fun b => (b - k) mod 256) (rev body))
           else None
       | [] => None
       end |}.

Definition nonce_a : list Z := [1; 2; 3; 4; 5; 6; 7; 8; 9; 10; 11; 12].
Definition nonce_b : list Z := [1; 2; 3; 4; 5; 6; 7; 8; 9; 10; 11; 13].

End CodecSpec.

(** ** The Pomodoro timer: the updater of the interval, Start and Stop *)
Module Pomodoro.

Record pomodoro := mkPomodoro {
  running : bool;
  mode : jsstring;
  remaining : Z
}.

(** The first state of the component, which is also what Stop sets. *)
Definition stopped : pomodoro :=
  {| running := false; mode := js "work"; remaining := 25 * 60 |}.

(** What the Start button sets. *)
Definition started : pomodoro :=
  {| running := true; mode := js "work"; remaining := 25 * 60 |}.

(** The updater that the interval passes to [setPomodoro] every second.
    The notification that it shows at a change of mode is not part of
    the state. *)
Definition tick (p : pomodoro) : pomodoro :=
  if remaining p <=? 1 then
    let nextMode :=
      if string_eqb (mode p) (js "work") then js "break" else js "work" in
    let nextRemaining :=
      if string_eqb nextMode (js "work") then 25 * 60 else 5 * 60 in
    {| running := running p; mode := nextMode; remaining := nextRemaining |}
  else
    {| running := running p; mode := mode p; remaining := remaining p - 1 |}.

(** The states of the timer: the buttons at any time, a tick while the
    timer runs (the interval exists only then). *)
Inductive reachable : pomodoro -> Prop :=
| reach_first : reachable stopped
| reach_start (p : pomodoro) : reachable p -> reachable started
| reach_stop (p : pomodoro) : reachable p -> reachable stopped
| reach_tick (p : pomodoro) :
    reachable p -> running p = true -> reachable (tick p).

End Pomodoro.

(** ** The list of entries: [removeEntry] and the [filtered] memo *)
Module Entries.
Import Date.

(** [removeEntry(id)]; [confirmed] is the answer to the [confirm]
    dialog. *)
Definition removeEntry (confirmed : bool) (id0 : jsstring)
    (entries : list entry) : list entry :=
  if negb confirmed then entries
  else List.filter (fun r => negb (string_eqb (id r) id0)) entries.

(** [s.startsWith(q)] and [s.includes(q)] on code units. *)
Fixpoint starts_with (q s : jsstring) : bool :=
  match q, s with
  | [], _ => true
  | c :: q', d :: s' => (c =? d) && starts_with q' s'
  | _ :: _, [] => false
  end.

Fixpoint includes (s q : jsstring) : bool :=
  starts_with q s
  || match s with
     | [] => false
     | _ :: s' => includes s' q
     end.

(** The state that the filter bar edits.  The two dates come from date
    inputs, which yield the empty string or the form YYYY-MM-DD. *)
Record filters := mkFilters {
  query : jsstring;
  filterTag : jsstring;
  from : jsstring;
  to : jsstring
}.

Definition no_filters : filters :=
  {| query := []; filterTag := []; from := []; to := [] |}.

(** [new Date(a) < new Date(b)]: a comparison with an invalid date is
    false. *)
Definition date_lt (a b : jsstring) : bool :=
  match parse_date a, parse_date b with
  | Some x, Some y => x <? y
  | _, _ => false
  end.

Section Filtered.

(** [String.prototype.toLowerCase], which follows the Unicode case
    mapping of the engine. *)
Variable toLowerCase : jsstring -> jsstring.

Definition matches_query (q : jsstring) (e : entry) : bool :=
  includes (toLowerCase (str_or (tasksNotes e) [])) q
  || includes (toLowerCase (str_or (wins e) [])) q
  || includes (toLowerCase (str_or (challenges e) [])) q
  || includes (toLowerCase (join (js ", ") (tags e))) q.

(** The callback of the filter: the four tests in the order of the
    source. *)
Definition keep (f : filters) (e : entry) : bool :=
  if Form.nonempty (query f)
     && negb (matches_query (toLowerCase (query f)) e) then false
  else if Form.nonempty (filterTag f)
          && negb (existsb (string_eqb (filterTag f)) (tags e)) then false
  else if Form.nonempty (from f) && date_lt (date e) (from f) then false
  else if Form.nonempty (to f) && date_lt (to f) (date e) then false
  else true.

Definition filtered (f : filters) (entries : list entry) : list entry :=
  List.filter (keep f) entries.

End Filtered.

End Entries.

(** ** Advice and tag counts: the rest of [generateReport] and of the
    [analytics] memo, and the advice panels of the local variant *)
Module Insight.

(** [x < y] and [x >= y] on numbers; a comparison with [NaN] is
    false. *)
Definition num_ltb (x y : number) : bool :=
  match x, y with
  | NaN, _ | _, NaN => false
  | Inf a, Inf b => a && negb b
  | Inf a, Fin _ => a
  | Fin _, Inf b => negb b
  | Fin p, Fin q => if Qlt_le_dec p q then true else false
  end.

Definition num_geb (x y : number) : bool :=
  match x, y with
  | NaN, _ | _, NaN => false
  | _, _ => negb (num_ltb x y)
  end.

(** The four texts that [generateReport] can push. *)
Inductive recommendation :=
| ReducePlanned
| RemoveDistraction
| RaiseTarget
| FocusBlock.

(** The number [sr] of [generateReport]: the rate is printed by
    [toFixed(1)] with a percent sign after it, and [Number] reads it
    back with the sign taken off.  [None] is the dash that stands for
    no rate, when [totalPlanned] is falsy. *)
Definition sr (selected : list entry) : option number :=
  let totalPlanned := Analytics.total plannedTasks selected in
  let totalCompleted := Analytics.total completedTasks selected in
  if truthy totalPlanned
  then Some (plus_toFixed 1
               (num_mul (num_div totalCompleted totalPlanned) (Fin 100)))
  else None.

(** What the first [if] pushes: the advice on the rate. *)
Definition rate_advice (selected : list entry) : list recommendation :=
  match sr selected with
  | Some r =>
      if num_ltb r (Fin 50) then [ReducePlanned]
      else if num_ltb r (Fin 80) then [RemoveDistraction]
      else [RaiseTarget]
  | None => []
  end.

(** What the second [if] pushes: the advice on the focused minutes. *)
Definition focus_advice (selected : list entry) : list recommendation :=
  if existsb (fun s => num_ltb (num_or (minutesFocused s) zero) (Fin 20))
             selected
  then [FocusBlock] else [].

Definition recommendations (selected : list entry) : list recommendation :=
  rate_advice selected ++ focus_advice selected.

(** The [recommendations] field of [generateReport(range)] at time
    [now]. *)
Definition report_recommendations (tz : Date.TimeZone) (now : Z)
    (range : jsstring) (entries : list entry) : list recommendation :=
  recommendations (Report.selected tz now range entries).

(** The three advice panels of the local variant, each under its own
    condition on [analytics.successRate]. *)
Inductive panel :=
| Below50
| Fair
| Great.

Definition panels (successRate : option number) : list panel :=
  match successRate with
  | None => []
  | Some r =>
      (if num_ltb r (Fin 50) then [Below50] else [])
      ++ (if num_geb r (Fin 50) && num_ltb r (Fin 80) then [Fair] else [])
      ++ (if num_geb r (Fin 80) then [Great] else [])
  end.

(** The trend series of the local variant. *)
Definition trend_local (entries : list entry) : list (jsstring * number) :=
  Analytics.last_n 30 (map (fun r => (date r, completedTasks r))
                           (rev (firstn 30 entries))).

(** The property names that an object literal inherits from
    [Object.prototype]. *)
Definition inherited_names : list jsstring :=
  [ js "constructor"; js "hasOwnProperty"; js "isPrototypeOf";
    js "propertyIsEnumerable"; js "toLocaleString"; js "toString";
    js "valueOf"; js "__proto__"; js "__defineGetter__";
    js "__defineSetter__"; js "__lookupGetter__"; js "__lookupSetter__" ].

(** [tagCounts[t] = (tagCounts[t] || 0) + 1] on the object literal
    [tagCounts].  For an inherited name the read gives the inherited
    value, which is not a number; [None] stands for that case, which
    the model does not follow further. *)
Definition count_tag (counts : option (gmap jsstring Z)) (t : jsstring)
  : option (gmap jsstring Z) :=
  match counts with
  | None => None
  | Some m =>
      if existsb (string_eqb t) inherited_names then None
      else Some (<[t := default 0 (m !! t) + 1]> m)
  end.

Definition tagCounts (entries : list entry) : option (gmap jsstring Z) :=
  fold_left count_tag (flat_map tags entries) (Some ∅).

End Insight.

(** ** The Add button of [HabitUI] in local mode *)
Module HabitUI.
Import Habits.

(** The click handler: the new list of habits and the new content of
    the name field. *)
Definition add (now : Z) (name : jsstring) (h : list habit)
  : list habit * jsstring :=
  if Form.nonempty (Num.trim name)
  then (addHabitLocal now (Num.trim name) h, [])
  else (h, name).

(** One action of the user in local mode: Add with some content of the
    name field, or Mark Done on a habit. *)
Inductive step (tz : Date.TimeZone) : list habit -> list habit -> Prop :=
| step_add (now : Z) (name : jsstring) (h : list habit) :
    step tz h (fst (add now name h))
| step_mark (fuel : nat) (now : Z) (habitId : jsstring) (h h' : list habit) :
    markHabitLocal fuel tz now habitId h = Some h' ->
    step tz h h'.

Definition reachable (tz : Date.TimeZone) (h : list habit) : Prop :=
  rtc (step tz) [] h.

End HabitUI.

(** ** The cloud backup: the key effect and [uploadBackup] *)
Module Backup.
Import Codec.

(** The effect that follows the passphrase: the content of
    [cryptoKeyRef] once it has run.  The salt is the identity of the
    user, or a fixed text when nobody is signed in.  The derivation of
    the interface always gives a key; a rejected one, after which the
    source stores [null], is not modelled. *)
Definition cryptoKeyRef (A : AesGcm) (passphrase : jsstring)
    (user : option jsstring) : option (CryptoKey A) :=
  if negb (Form.nonempty passphrase) then None
  else
    let salt :=
      match user with
      | Some uid => str_or uid (js "public-salt")
      | None => js "public-salt"
      end in
    Some (deriveKey A passphrase salt).

Inductive upload_alert :=
| UploadNotConfigured
| UploadSignInFirst
| UploadEnterPassphrase
| BackupUploaded
| UploadFailed (f : failure).

(** [uploadBackup].  [stringify] is [JSON.stringify] on the object of
    the entries, the habits and the time stamp; [upsert] is the answer
    of the backend to the row, [None] when it reports no error.  The
    result is the row handed to the backend, if any, and the alert. *)
Definition uploadBackup (A : AesGcm) (configured : bool)
    (user : option jsstring) (key : option (CryptoKey A))
    (random : list Z)
    (stringify : list entry -> list Habits.habit -> jsstring -> jsstring)
    (now : Z)
    (upsert : jsstring -> jsstring -> option jsstring)
    (st : snapshot) : option (jsstring * jsstring) * upload_alert :=
  if negb configured then (None, UploadNotConfigured)
  else match user, key with
  | None, _ => (None, UploadSignInFirst)
  | Some _, None => (None, UploadEnterPassphrase)
  | Some uid, Some k =>
      let payload :=
        stringify (snap_entries st) (snap_habits st) (Date.toISOString now) in
      match encryptString A random k payload with
      | Err e => (None, UploadFailed (CryptoError e))
      | Ok encrypted =>
          match upsert uid encrypted with
          | Some message =>
              (Some (uid, encrypted), UploadFailed (BackendError message))
          | None => (Some (uid, encrypted), BackupUploaded)
          end
      end
  end.

End Backup.

(** ** Vocabulary for the statements about the tag counts *)
Module InsightSpec.

(** How often [t] is among the tags. *)
Definition occurrences (t : jsstring) (l : list jsstring) : Z :=
  Z.of_nat (length (List.filter (string_eqb t) l)).

(** Two entries with three tags, one of them twice. *)
Definition tagged : list entry :=
  [ CsvSpec.sample [] [js "deep"; js "work"]; CsvSpec.sample [] [js "work"] ].

End InsightSpec.

(* ================================================================== *)
(** * Part II: theorems                                                *)
(* ================================================================== *)

(** Linear arithmetic with quotients and remainders by constants. *)
Ltac euclid := Z.to_euclidean_division_equations; lia.

(** ** CSV export *)
Module CsvFacts.
Import CsvSpec.
Import Csv.

Lemma header_line_eq : join (js ",") header = header_line.
Proof. reflexivity. Qed.

(** With no entry the export is the header row alone. *)
Lemma toCSV_nil (sh : number -> jsstring) : toCSV sh [] = header_line.
Proof. reflexivity. Qed.

(** The export is the header row followed by one line per entry, in
    order, the lines separated by a newline. *)
Lemma toCSV_lines (sh : number -> jsstring) (entries : list entry) :
  toCSV sh entries =
  join newline (header_line :: map (fun r => join (js ",") (row sh r)) entries).
Proof.
  unfold toCSV. cbn [map]. rewrite header_line_eq, map_map. reflexivity.
Qed.

Lemma replace_dq_cons (c : Z) (s : jsstring) :
  replace_dq (c :: s) =
  (if c =? dq then [dq; dq] else [c]) ++ replace_dq s.
Proof. reflexivity. Qed.

Lemma undouble_other (c : Z) (s : jsstring) :
  c <> dq -> undouble (c :: s) = c :: undouble s.
Proof.
  intros Hc. apply Z.eqb_neq in Hc.
  destruct s as [|d tl]; [reflexivity|].
  change (undouble (c :: d :: tl))
    with (if ((c =? dq) && (d =? dq))%bool then dq :: undouble tl
          else c :: undouble (d :: tl)).
  now rewrite Hc.
Qed.

Lemma undouble_pair (s : jsstring) :
  undouble (dq :: dq :: s) = dq :: undouble s.
Proof. reflexivity. Qed.

(** The doubling loses nothing: a reader that merges doubled quotes
    gets the text back. *)
Lemma undouble_replace_dq (s : jsstring) : undouble (replace_dq s) = s.
Proof.
  induction s as [|c s IH]; [reflexivity|].
  rewrite replace_dq_cons.
  destruct (Z.eqb_spec c dq) as [->|Hc].
  - cbn [app]. now rewrite undouble_pair, IH.
  - cbn [app]. now rewrite undouble_other, IH.
Qed.

(** Every double quote of a doubled text has a partner: their number
    is even. *)
Lemma replace_dq_count (s : jsstring) :
  count_occ Z.eq_dec (replace_dq s) dq = (2 * count_occ Z.eq_dec s dq)%nat.
Proof.
  induction s as [|c s IH]; [reflexivity|].
  rewrite replace_dq_cons, count_occ_app, IH.
  destruct (Z.eqb_spec c dq) as [->|Hc].
  - cbn. destruct (Z.eq_dec dq dq); [lia|congruence].
  - cbn. destruct (Z.eq_dec c dq); [congruence|]. lia.
Qed.

(** The cells of a row: the three free texts are wrapped in double
    quotes with the inner quotes doubled, the tags are joined by a
    comma and a space and wrapped, the other cells are bare. *)
Lemma row_cells (sh : number -> jsstring) (r : entry) :
  row sh r =
  [ date r; sh (plannedTasks r); sh (completedTasks r);
    [dq] ++ replace_dq (tasksNotes r) ++ [dq];
    [dq] ++ replace_dq (wins r) ++ [dq];
    [dq] ++ replace_dq (challenges r) ++ [dq];
    sh (mood r); sh (minutesFocused r);
    [dq] ++ join (js ", ") (tags r) ++ [dq];
    createdAt r ].
Proof.
  unfold row, quoted, str_or.
  destruct (tasksNotes r), (wins r), (challenges r); reflexivity.
Qed.

(** The notes of the spec's example are written with the inner quotes
    doubled. *)
Lemma toCSV_he_said_hi :
  nth 3 (row show (sample he_said_hi [])) [] =
  [dq] ++ js "He said " ++ [dq; dq] ++ js "hi" ++ [dq; dq] ++ [dq].
Proof. reflexivity. Qed.

Lemma toCSV_sample :
  toCSV show [sample (js "n") [js "a"; js "b"]] =
  header_line ++ newline ++
  js "2024-05-04,5,3," ++ [dq] ++ js "n" ++ [dq] ++ js "," ++
  [dq] ++ js "w" ++ [dq] ++ js "," ++ [dq; dq] ++ js ",4,25," ++
  [dq] ++ js "a, b" ++ [dq] ++ js ",2024-05-04T10:00:00.000Z".
Proof. reflexivity. Qed.

(** C7, at the failing input: a tag that holds double quotes is
    wrapped but its quotes are not doubled, unlike the three free
    texts whose quotes are; the cell is not the doubled form. *)
Theorem toCSV_tags_quotes_not_doubled :
  let r := sample he_said_hi [he_said_hi] in
  nth 8 (row show r) [] = [dq] ++ he_said_hi ++ [dq] /\
  nth 8 (row show r) [] <> [dq] ++ replace_dq he_said_hi ++ [dq] /\
  nth 3 (row show r) [] = [dq] ++ replace_dq he_said_hi ++ [dq].
Proof. cbv zeta. split; [reflexivity|split; [discriminate|reflexivity]]. Qed.

End CsvFacts.

(** ** [Number] on strings *)
Module NumFacts.
Import Num.

Example Number_empty : StringToNumber [] = Fin 0.
Proof. reflexivity. Qed.
Example Number_blank : StringToNumber (js "  ") = Fin 0.
Proof. reflexivity. Qed.
Example Number_42 : StringToNumber (js " 42 ") = Fin 42.
Proof. reflexivity. Qed.
Example Number_neg3 : StringToNumber (js "-3") = Fin (-3).
Proof. reflexivity. Qed.
Example Number_2_5 : StringToNumber (js "2.5") = Fin (5 # 2).
Proof. reflexivity. Qed.
Example Number_dot5e1 : StringToNumber (js ".5e1") = Fin 5.
Proof. reflexivity. Qed.
Example Number_5dot : StringToNumber (js "5.") = Fin 5.
Proof. reflexivity. Qed.
Example Number_1em2 : StringToNumber (js "1E-2") = Fin (1 # 100).
Proof. reflexivity. Qed.
Example Number_hex : StringToNumber (js "0x1F") = Fin 31.
Proof. reflexivity. Qed.
Example Number_neg_hex : StringToNumber (js "-0x1F") = NaN.
Proof. reflexivity. Qed.
Example Number_abc : StringToNumber (js "abc") = NaN.
Proof. reflexivity. Qed.
Example Number_12px : StringToNumber (js "12px") = NaN.
Proof. reflexivity. Qed.
Example Number_dot : StringToNumber (js ".") = NaN.
Proof. reflexivity. Qed.
Example Number_e5 : StringToNumber (js "1e") = NaN.
Proof. reflexivity. Qed.
Example Number_plus : StringToNumber (js "+") = NaN.
Proof. reflexivity. Qed.
Example Number_inf : StringToNumber (js "-Infinity") = Inf true.
Proof. reflexivity. Qed.
Example Number_1_2_3 : StringToNumber (js "1.2.3") = NaN.
Proof. reflexivity. Qed.
Example Number_0x : StringToNumber (js "0x") = NaN.
Proof. reflexivity. Qed.

Lemma is_digit_range (c : Z) : is_digit c = true <-> 48 <= c <= 57.
Proof. unfold is_digit. lia. Qed.

Lemma digit_not_space (c : Z) : is_digit c = true -> is_space c = false.
Proof.
  intros H. apply is_digit_range in H.
  assert (c = 48 \/ c = 49 \/ c = 50 \/ c = 51 \/ c = 52 \/ c = 53 \/
          c = 54 \/ c = 55 \/ c = 56 \/ c = 57) as Hc by lia.
  repeat destruct Hc as [->|Hc]; try subst c; reflexivity.
Qed.

Lemma trim_start_digit (c : Z) (s : jsstring) :
  is_digit c = true -> trim_start (c :: s) = c :: s.
Proof. intros H. cbn. now rewrite (digit_not_space c H). Qed.

Lemma trim_start_digits (s : jsstring) :
  forallb is_digit s = true -> trim_start s = s.
Proof.
  destruct s as [|c s]; [reflexivity|]. cbn [forallb].
  intros [H _]%andb_prop. now apply trim_start_digit.
Qed.

Lemma trim_digits (s : jsstring) :
  forallb is_digit s = true -> trim s = s.
Proof.
  intros H. unfold trim. rewrite (trim_start_digits s H).
  rewrite trim_start_digits; [apply rev_involutive|].
  apply forallb_forall. intros c Hc%in_rev.
  now apply (proj1 (forallb_forall _ _) H).
Qed.

Lemma span_digits_all (s : jsstring) :
  forallb is_digit s = true -> span_digits s = (s, []).
Proof.
  induction s as [|c s IH]; [reflexivity|]. cbn [forallb span_digits].
  intros [Hc Hs]%andb_prop. now rewrite Hc, (IH Hs).
Qed.

Lemma digits_value_all (s : jsstring) (acc : Z) :
  forallb is_digit s = true -> 0 <= acc ->
  exists n, digits_value 10 acc s = Some n /\ 0 <= n.
Proof.
  revert acc. induction s as [|c s IH]; intros acc Hs Hacc.
  - exists acc. now split.
  - cbn [forallb] in Hs. apply andb_prop in Hs as [Hc Hs].
    cbn [digits_value]. unfold digit_value.
    pose proof (proj1 (is_digit_range c) Hc) as Hr.
    unfold is_digit in Hc. rewrite Hc.
    destruct (Z.ltb_spec (c - 48) 10); [|lia].
    apply IH; [assumption|lia].
Qed.

Lemma Qred_inject_Z (n : Z) : Qred (inject_Z n * 1) = inject_Z n.
Proof.
  unfold Qmult, inject_Z. cbn [Qnum Qden]. rewrite Z.mul_1_r.
  apply Qred_identity. cbn. apply Z.gcd_1_r.
Qed.

(** A non-empty string of decimal digits is read as the non-negative
    integer that it writes. *)
Lemma StringToNumber_digits (s : jsstring) :
  s <> [] -> forallb is_digit s = true ->
  exists n, 0 <= n /\ StringToNumber s = Fin (inject_Z n).
Proof.
  intros Hne Hs. unfold StringToNumber. rewrite (trim_digits s Hs).
  destruct s as [|c s]; [congruence|].
  pose proof Hs as Hcs. cbn [forallb] in Hcs.
  apply andb_prop in Hcs as [Hc Hrest].
  pose proof (proj1 (is_digit_range c) Hc) as Hr.
  assert (non_decimal (c :: s) = None) as ->.
  { unfold non_decimal. destruct s as [|p [|d s]]; try reflexivity.
    cbn [forallb] in Hrest. apply andb_prop in Hrest as [Hp _].
    apply is_digit_range in Hp.
    destruct (negb (c =? 48)); [reflexivity|].
    repeat match goal with
           | |- context [?a =? ?b] => destruct (Z.eqb_spec a b); [lia|]
           end.
    reflexivity. }
  destruct (digits_value_all (c :: s) 0 Hs ltac:(lia)) as (n & Hn & Hpos).
  exists n. split; [assumption|].
  assert (str_decimal (c :: s) =
          match unsigned_decimal (c :: s) with Some q => Fin q | None => NaN end)
    as ->.
  { unfold str_decimal.
    destruct (Z.eqb_spec c 43); [lia|]. destruct (Z.eqb_spec c 45); [lia|].
    assert (string_eqb (c :: s) (js "Infinity") = false) as ->; [|reflexivity].
    unfold string_eqb. destruct (decide _) as [E|]; [|reflexivity].
    cbn in E. injection E as E _. lia. }
  unfold unsigned_decimal. rewrite (span_digits_all _ Hs).
  rewrite app_nil_r, Hn. cbn [exponent_part length Z.of_nat].
  change (Qpower 10 (0 - 0)) with 1%Q. now rewrite Qred_inject_Z.
Qed.

End NumFacts.

(** ** The entry built from the form *)
Module FormFacts.
Import FormSpec.
Import Num Form NumFacts.

Example tags_of_form :
  tags (newEntry 0 (with_mood (VNum (Fin 3)))) = [js "coding"; js "health"].
Proof. reflexivity. Qed.

Example counts_5_3 :
  let e := newEntry 0 (with_counts (js "5") (js "3")) in
  plannedTasks e = Fin 5 /\ completedTasks e = Fin 3.
Proof. split; reflexivity. Qed.

Example counts_unparsed :
  let e := newEntry 0 (with_counts (js "abc") (js "")) in
  plannedTasks e = Fin 0 /\ completedTasks e = Fin 0.
Proof. split; reflexivity. Qed.




(** C10: a mood that is not a number, that is empty, or that is zero
    gives the default mood 3. *)
Theorem addEntry_mood_default (now : Z) (f : form) :
  Number (f_mood f) = NaN \/ f_mood f = VStr [] \/
  (exists q, Number (f_mood f) = Fin q /\ q == 0) ->
  mood (newEntry now f) = Fin 3.
Proof.
  cbn [newEntry mood]. unfold num_or.
  intros [-> | [-> | (q & -> & Hq)]]; try reflexivity.
  cbn [truthy]. apply Qeq_bool_iff in Hq. now rewrite Hq.
Qed.

Lemma addEntry_mood_default_witness :
  mood (newEntry 0 (with_mood (VStr (js "abc")))) = Fin 3 /\
  mood (newEntry 0 (with_mood (VStr []))) = Fin 3 /\
  mood (newEntry 0 (with_mood (VStr (js "0")))) = Fin 3 /\
  mood (newEntry 0 (with_mood (VNum (Fin 0)))) = Fin 3.
Proof.
  split; [|split; [|split]].
  - apply (addEntry_mood_default 0 (with_mood (VStr (js "abc")))).
    left. reflexivity.
  - apply (addEntry_mood_default 0 (with_mood (VStr []))).
    right. left. reflexivity.
  - apply (addEntry_mood_default 0 (with_mood (VStr (js "0")))).
    right. right. exists 0%Q. split; reflexivity.
  - apply (addEntry_mood_default 0 (with_mood (VNum (Fin 0)))).
    right. right. exists 0%Q. split; reflexivity.
Defined.

(** A mood that parses to a non-zero number is kept, in range or
    not. *)
Example mood_kept :
  mood (newEntry 0 (with_mood (VStr (js "4")))) = Fin 4 /\
  mood (newEntry 0 (with_mood (VStr (js "7")))) = Fin 7 /\
  mood (newEntry 0 (with_mood (VStr (js "-1")))) = Fin (-1).
Proof. repeat split. Qed.

End FormFacts.

(** ** The calendar *)
Module DateFacts.
Import Date.

Example iso_epoch :
  toISOString 0 = js "1970-01-01T00:00:00.000Z".
Proof. reflexivity. Qed.

Example iso_2024 :
  toISOString 1711927800000 = js "2024-03-31T23:30:00.000Z".
Proof. reflexivity. Qed.

Example iso_leap_day :
  toISOString 1709251199999 = js "2024-02-29T23:59:59.999Z".
Proof. reflexivity. Qed.

Example iso_before_epoch :
  toISOString (-1) = js "1969-12-31T23:59:59.999Z".
Proof. reflexivity. Qed.

Example iso_1900 :
  toISOString (-2203891200000) = js "1900-03-01T00:00:00.000Z".
Proof. reflexivity. Qed.

Example parse_2024 : parse_date (js "2024-03-31") = Some 1711843200000.
Proof. reflexivity. Qed.

Example parse_feb30 : parse_date (js "2024-02-30") = None.
Proof. reflexivity. Qed.

(** [YearFromDay] meets the standard's definition of the year of a
    time value. *)
Lemma YearFromDay_spec (d : Z) :
  DayFromYear (YearFromDay d) <= d < DayFromYear (YearFromDay d + 1).
Proof.
  unfold YearFromDay. cbv zeta.
  destruct (Z.ltb_spec d (DayFromYear (1970 + d * 400 / 146097))).
  - unfold DayFromYear in *. euclid.
  - destruct (Z.leb_spec (DayFromYear (1970 + d * 400 / 146097 + 1)) d).
    + unfold DayFromYear in *. euclid.
    + lia.
Qed.

Lemma DayFromYear_succ (y : Z) :
  DayFromYear (y + 1) = DayFromYear y + DaysInYear y.
Proof.
  unfold DayFromYear, DaysInYear.
  destruct (Z.eqb_spec (y mod 4) 0), (Z.eqb_spec (y mod 100) 0),
    (Z.eqb_spec (y mod 400) 0); cbn [andb orb negb]; euclid.
Qed.

Lemma InLeapYear_days (t : Z) :
  (InLeapYear t = 0 /\ DaysInYear (YearFromTime t) = 365) \/
  (InLeapYear t = 1 /\ DaysInYear (YearFromTime t) = 366).
Proof.
  unfold InLeapYear.
  destruct (Z.eqb_spec (DaysInYear (YearFromTime t)) 366) as [E|E]; [now right|].
  left. split; [reflexivity|]. unfold DaysInYear in *.
  destruct (_ && _)%bool; congruence.
Qed.

Lemma DayWithinYear_range (t : Z) :
  0 <= DayWithinYear t < DaysInYear (YearFromTime t).
Proof.
  unfold DayWithinYear, YearFromTime.
  pose proof (YearFromDay_spec (Day t)) as H.
  rewrite DayFromYear_succ in H. lia.
Qed.

Lemma MonthFromTime_range (t : Z) : 0 <= MonthFromTime t <= 11.
Proof.
  unfold MonthFromTime. cbv zeta.
  repeat match goal with
         | |- context [if ?b then _ else _] => destruct b
         end; lia.
Qed.

Lemma DateFromTime_range (t : Z) : 1 <= DateFromTime t <= 31.
Proof.
  unfold DateFromTime, MonthFromTime. cbv zeta.
  pose proof (DayWithinYear_range t) as Hd.
  destruct (InLeapYear_days t) as [[-> Hy]|[-> Hy]]; rewrite Hy in Hd;
    repeat match goal with
           | |- context [if ?a <? ?b then _ else _] =>
               destruct (Z.ltb_spec a b)
           end; cbn [month_start]; lia.
Qed.

(** The day number is recovered from the year, the month and the day
    of the month. *)
Lemma MakeDay_of_time (t dt : Z) :
  MakeDay (YearFromTime t) (MonthFromTime t) dt =
  Day t + (dt - DateFromTime t).
Proof.
  unfold MakeDay. cbv zeta.
  pose proof (MonthFromTime_range t) as Hm.
  replace (MonthFromTime t / 12) with 0 by euclid.
  replace (MonthFromTime t mod 12) with (MonthFromTime t) by euclid.
  rewrite Z.add_0_r. fold (InLeapYear t).
  unfold DateFromTime, DayWithinYear. lia.
Qed.

Lemma Day_shift (t k : Z) : Day (t + k * msPerDay) = Day t + k.
Proof. unfold Day, msPerDay. euclid. Qed.

Lemma TimeWithinDay_shift (t k : Z) :
  TimeWithinDay (t + k * msPerDay) = TimeWithinDay t.
Proof. unfold TimeWithinDay, msPerDay. euclid. Qed.

Lemma MakeDate_of_time (t k : Z) :
  MakeDate (Day t + k) (TimeWithinDay t) = t + k * msPerDay.
Proof. unfold MakeDate, Day, TimeWithinDay, msPerDay. euclid. Qed.

(** In a zone whose offset never changes, moving the day of the month
    by [k] moves the time value by [k] whole days. *)
Lemma setDate_fixed_zone (off t k : Z) :
  setDate (fixed_zone off) t (getDate (fixed_zone off) t + k) =
  t + k * msPerDay.
Proof.
  unfold setDate, getDate, LocalTime, UTC. cbn [fixed_zone offset_at_utc offset_at_local].
  rewrite MakeDay_of_time.
  replace (DateFromTime (t + off) + k - DateFromTime (t + off)) with k by lia.
  rewrite MakeDate_of_time. lia.
Qed.

End DateFacts.

(** ** Analytics: the success rate *)
Module AnalyticsFacts.
Import AnalyticsSpec.
Import Analytics.
Local Open Scope Q_scope.

Example successRate_none : successRate [] = None.
Proof. reflexivity. Qed.

Example successRate_zero_planned :
  successRate [counts 0 4; counts 0 1] = None.
Proof. reflexivity. Qed.

(** The example of the spec: 5 of 5 and 0 of 5. *)
Example successRate_half :
  totalPlanned [counts 5 5; counts 5 0] = Fin 10 /\
  totalCompleted [counts 5 5; counts 5 0] = Fin 5 /\
  successRate [counts 5 5; counts 5 0] = Some (Fin 50).
Proof. repeat split. Qed.

Example successRate_third : successRate [counts 3 1] = Some (Fin (333 # 10)).
Proof. reflexivity. Qed.

Example successRate_two_thirds :
  successRate [counts 3 2] = Some (Fin (667 # 10)).
Proof. reflexivity. Qed.

Example successRate_no_completion :
  successRate [counts 3 0] = Some (Fin 0).
Proof. reflexivity. Qed.

Lemma num_or_zero_fin (x : number) :
  not_infinite x -> num_or x zero = Fin (addend x).
Proof.
  unfold addend, num_or. destruct x as [|b|q]; cbn; try tauto.
  now destruct (negb _).
Qed.

Lemma fold_total_fin (field : entry -> number) (entries : list entry) :
  Forall (fun r => not_infinite (field r)) entries ->
  forall acc : Q, exists q,
    fold_left (fun s r => num_add s (num_or (field r) zero)) entries (Fin acc)
    = Fin q /\ q == acc + Qsum field entries.
Proof.
  induction 1 as [|r entries Hr _ IH]; intros acc.
  - exists acc. split; [reflexivity|]. cbn. ring.
  - cbn [fold_left Qsum fold_right]. rewrite (num_or_zero_fin _ Hr).
    cbn [num_add]. destruct (IH (Qred (acc + addend (field r)))) as (q & -> & Hq).
    exists q. split; [reflexivity|]. rewrite Hq, Qred_correct.
    change (fold_right _ 0 entries) with (Qsum field entries). ring.
Qed.

(** Over fields that are not infinite a total is the finite sum of the
    fields. *)
Lemma total_fin (field : entry -> number) (entries : list entry) :
  Forall (fun r => not_infinite (field r)) entries ->
  exists q, total field entries = Fin q /\ q == Qsum field entries.
Proof.
  intros H. destruct (fold_total_fin field entries H 0) as (q & Hq & E).
  exists q. split; [exact Hq|]. rewrite E. ring.
Qed.

Lemma scale_pos (f : nat) : 0 < inject_Z (10 ^ Z.of_nat f).
Proof.
  change 0 with (inject_Z 0). rewrite <- Zlt_Qlt.
  apply Z.pow_pos_nonneg; lia.
Qed.

(** The value printed by [toFixed] is a multiple of [10^-f] ... *)
Lemma toFixed_value_grid (f : nat) (x : Q) :
  exists n : Z, toFixed_value f x == inject_Z n / inject_Z (10 ^ Z.of_nat f).
Proof.
  unfold toFixed_value. cbv zeta.
  set (n := Qfloor _). destruct (Qneg x).
  - exists (- n)%Z. rewrite Qred_correct, inject_Z_opp. reflexivity.
  - exists n. now rewrite Qred_correct.
Qed.

(** ... and no multiple of [10^-f] is nearer to [x]: the distance is
    at most half a step. *)
Lemma toFixed_value_near (f : nat) (x : Q) :
  Qabs (toFixed_value f x - x) * inject_Z (10 ^ Z.of_nat f) <= 1 # 2.
Proof.
  unfold toFixed_value. cbv zeta.
  pose proof (scale_pos f) as HS. set (S := inject_Z (10 ^ Z.of_nat f)) in *.
  set (n := Qfloor _).
  pose proof (Qfloor_le (Qabs x * S + (1 # 2))) as Hlo.
  pose proof (Qlt_floor (Qabs x * S + (1 # 2))) as Hhi.
  fold n in Hlo, Hhi. rewrite inject_Z_plus in Hhi.
  change (inject_Z 1) with 1 in Hhi.
  rewrite Qred_correct. clearbody n. clearbody S.
  assert (HSabs : Qabs S == S) by (apply Qabs_pos; lra).
  rewrite <- HSabs at 2. rewrite <- Qabs_Qmult.
  unfold Qneg. destruct (Qlt_le_dec x 0) as [Hx|Hx].
  - assert (Qabs x == - x) as Ha by (apply Qabs_neg; lra).
    rewrite Ha in Hlo, Hhi.
    assert ((- inject_Z n / S - x) * S == - inject_Z n - x * S) as ->
        by (field; lra).
    assert (- x * S == - (x * S)) as Hm by ring. rewrite Hm in Hlo, Hhi.
    apply Qabs_Qle_condition. split; lra.
  - assert (Qabs x == x) as Ha by (apply Qabs_pos; lra).
    rewrite Ha in Hlo, Hhi.
    assert ((inject_Z n / S - x) * S == inject_Z n - x * S) as ->
        by (field; lra).
    apply Qabs_Qle_condition. split; lra.
Qed.



End AnalyticsFacts.

(** ** Habits: the streak *)
Module HabitFacts.
Import HabitSpec.
Import Date Habits DateFacts.

Example streak_three :
  calculateStreak 10 utc 1715342400000
    [js "2024-05-10"; js "2024-05-09"; js "2024-05-08"; js "2024-05-06"]
  = Some 3%nat.
Proof. vm_compute. reflexivity. Qed.

(** *** The date key *)

Lemma DayFromYear_mono (y1 y2 : Z) :
  y1 <= y2 -> DayFromYear y1 <= DayFromYear y2.
Proof. unfold DayFromYear. intros H. euclid. Qed.

Lemma YearFromDay_mono (d1 d2 : Z) :
  d1 <= d2 -> YearFromDay d1 <= YearFromDay d2.
Proof.
  intros H. pose proof (YearFromDay_spec d1) as H1.
  pose proof (YearFromDay_spec d2) as H2.
  destruct (Z_le_gt_dec (YearFromDay d1) (YearFromDay d2)) as [|Hgt]; [assumption|].
  pose proof (DayFromYear_mono (YearFromDay d2 + 1) (YearFromDay d1)). lia.
Qed.

Lemma YearFromTime_mono (t1 t2 : Z) :
  t1 <= t2 -> YearFromTime t1 <= YearFromTime t2.
Proof.
  intros H. apply YearFromDay_mono. unfold Day, msPerDay. euclid.
Qed.

(** For a year of four digits the key is the date in the form
    YYYY-MM-DD. *)
Lemma date_key_parts (t : Z) :
  0 <= YearFromTime t <= 9999 ->
  date_key t =
  fixed_digits 4 (YearFromTime t) ++ [45]
  ++ fixed_digits 2 (MonthFromTime t + 1) ++ [45]
  ++ fixed_digits 2 (DateFromTime t).
Proof.
  intros [Hlo Hhi]. unfold date_key, toISOString. cbv zeta.
  destruct (Z.leb_spec 0 (YearFromTime t)); [|lia].
  destruct (Z.leb_spec (YearFromTime t) 9999); [|lia].
  reflexivity.
Qed.

Lemma fixed_digits_4_inj (a b : Z) :
  0 <= a < 10000 -> 0 <= b < 10000 ->
  fixed_digits 4 a = fixed_digits 4 b -> a = b.
Proof.
  intros Ha Hb E. cbn in E. injection E as E1 E2 E3 E4. euclid.
Qed.

Lemma fixed_digits_2_inj (a b : Z) :
  0 <= a < 100 -> 0 <= b < 100 ->
  fixed_digits 2 a = fixed_digits 2 b -> a = b.
Proof.
  intros Ha Hb E. cbn in E. injection E as E1 E2. euclid.
Qed.

(** Two time values of four-digit years have the same key exactly
    when they fall on the same UTC day. *)
Lemma date_key_inj (t1 t2 : Z) :
  0 <= YearFromTime t1 <= 9999 -> 0 <= YearFromTime t2 <= 9999 ->
  date_key t1 = date_key t2 -> Day t1 = Day t2.
Proof.
  intros H1 H2 E. rewrite (date_key_parts t1 H1), (date_key_parts t2 H2) in E.
  pose proof (MonthFromTime_range t1). pose proof (MonthFromTime_range t2).
  pose proof (DateFromTime_range t1). pose proof (DateFromTime_range t2).
  assert (fixed_digits 4 (YearFromTime t1) = fixed_digits 4 (YearFromTime t2) /\
          fixed_digits 2 (MonthFromTime t1 + 1) = fixed_digits 2 (MonthFromTime t2 + 1) /\
          fixed_digits 2 (DateFromTime t1) = fixed_digits 2 (DateFromTime t2))
    as (Ey & Em & Ed).
  { cbn in E |- *. injection E as -> -> -> -> -> -> -> ->. auto. }
  apply fixed_digits_4_inj in Ey; [|lia..].
  apply fixed_digits_2_inj in Em; [|lia..].
  apply fixed_digits_2_inj in Ed; [|lia..].
  pose proof (MakeDay_of_time t1 (DateFromTime t1)) as M1.
  pose proof (MakeDay_of_time t2 (DateFromTime t2)) as M2.
  assert (MonthFromTime t1 = MonthFromTime t2) as Em' by lia.
  rewrite Ey, Em', Ed in M1. lia.
Qed.

Lemma date_key_same_day (t1 t2 : Z) :
  Day t1 = Day t2 -> date_key t1 = date_key t2.
Proof.
  intros E.
  assert (YearFromTime t1 = YearFromTime t2) as Ey
      by (unfold YearFromTime; now rewrite E).
  assert (InLeapYear t1 = InLeapYear t2) as El
      by (unfold InLeapYear; now rewrite Ey).
  assert (DayWithinYear t1 = DayWithinYear t2) as Ed
      by (unfold DayWithinYear; now rewrite E, Ey).
  assert (MonthFromTime t1 = MonthFromTime t2) as Em
      by (unfold MonthFromTime; now rewrite Ed, El).
  assert (DateFromTime t1 = DateFromTime t2) as Edt
      by (unfold DateFromTime; now rewrite Ed, El, Em).
  unfold date_key, toISOString. cbv zeta. rewrite Ey, Em, Edt.
  destruct ((0 <=? YearFromTime t2) && (YearFromTime t2 <=? 9999))%bool;
    [reflexivity|].
  destruct (YearFromTime t2 <? 0); reflexivity.
Qed.

(** *** The loop *)

Lemma in_days (history : list jsstring) (key : jsstring) :
  key ∈ (list_to_set history : gset (list Z)) <-> In key history.
Proof. rewrite elem_of_list_to_set. apply list_elem_of_In. Qed.

(** Whatever the time zone, the streak is 0 when the key of the
    current day is not in the history. *)
Lemma calculateStreak_today_missing (fuel : nat) (tz : TimeZone) (now : Z)
    (history : list jsstring) :
  ~ In (date_key now) history ->
  calculateStreak (S fuel) tz now history = Some 0%nat.
Proof.
  intros H. unfold calculateStreak. cbn [streak_loop].
  destruct (decide _) as [Hin|]; [|reflexivity].
  apply in_days in Hin. contradiction.
Qed.

Lemma streak_loop_fixed_zone (off : Z) (days : gset (list Z)) (k : nat) :
  forall (fuel acc : nat) (cursor : Z),
    (forall i : nat, (i < k)%nat ->
       date_key (cursor - Z.of_nat i * msPerDay) ∈ days) ->
    date_key (cursor - Z.of_nat k * msPerDay) ∉ days ->
    (k < fuel)%nat ->
    streak_loop fuel (fixed_zone off) days acc cursor = Some (acc + k)%nat.
Proof.
  induction k as [|k IH]; intros fuel acc cursor Hin Hout Hfuel;
    (destruct fuel as [|fuel]; [lia|]); cbn [streak_loop].
  - replace (cursor - Z.of_nat 0 * msPerDay) with cursor in Hout by lia.
    destruct (decide _); [contradiction|]. f_equal. lia.
  - pose proof (Hin 0%nat ltac:(lia)) as H0.
    replace (cursor - Z.of_nat 0 * msPerDay) with cursor in H0 by lia.
    destruct (decide _); [|contradiction].
    replace (getDate (fixed_zone off) cursor - 1)
      with (getDate (fixed_zone off) cursor + (-1)) by lia.
    rewrite setDate_fixed_zone, IH; [f_equal; lia| | |lia].
    + intros i Hi. specialize (Hin (S i) ltac:(lia)).
      replace (cursor + -1 * msPerDay - Z.of_nat i * msPerDay)
        with (cursor - Z.of_nat (S i) * msPerDay) by lia. exact Hin.
    + replace (cursor + -1 * msPerDay - Z.of_nat k * msPerDay)
        with (cursor - Z.of_nat (S k) * msPerDay) by lia. exact Hout.
Qed.

(** In a zone whose offset never changes the loop ends with the number
    of consecutive days, as soon as the fuel exceeds it. *)
Lemma calculateStreak_fixed_zone_run (off now : Z) (history : list jsstring)
    (k fuel : nat) :
  consecutive_days history now k -> (k < fuel)%nat ->
  calculateStreak fuel (fixed_zone off) now history = Some k.
Proof.
  intros [Hin Hout] Hfuel. unfold calculateStreak.
  rewrite (streak_loop_fixed_zone off _ k); [reflexivity| | |assumption].
  - intros i Hi. apply in_days. auto.
  - rewrite in_days. assumption.
Qed.

Lemma least_missing (P : nat -> Prop) (dec : forall i, {P i} + {~ P i})
    (n : nat) :
  (forall i, (i < n)%nat -> P i) \/
  (exists k, (k < n)%nat /\ (forall i, (i < k)%nat -> P i) /\ ~ P k).
Proof.
  induction n as [|n [IH|(k & Hk & Hin & Hout)]].
  - left. intros i Hi. lia.
  - destruct (dec n) as [Hn|Hn].
    + left. intros i Hi. destruct (Nat.eq_dec i n) as [->|]; [assumption|].
      apply IH. lia.
    + right. exists n. auto.
  - right. exists k. split; [lia|auto].
Qed.

Lemma Day_back (now : Z) (i : nat) :
  Day (now - Z.of_nat i * msPerDay) = Day now - Z.of_nat i.
Proof.
  replace (now - Z.of_nat i * msPerDay) with (now + (- Z.of_nat i) * msPerDay)
    by lia.
  rewrite Day_shift. lia.
Qed.

(** The keys of the days walked back from [now] are pairwise
    different, so at most [length history] of them in a row can be in
    the history. *)
Lemma run_exists (now : Z) (history : list jsstring) :
  0 <= YearFromTime (now - Z.of_nat (length history) * msPerDay) ->
  YearFromTime now <= 9999 ->
  exists k, (k <= length history)%nat /\ consecutive_days history now k.
Proof.
  intros Hlo Hhi. set (n := length history) in *.
  set (key := fun i : nat => date_key (now - Z.of_nat i * msPerDay)).
  assert (Hrange : forall i, (i <= n)%nat ->
            0 <= YearFromTime (now - Z.of_nat i * msPerDay) <= 9999).
  { intros i Hi. split.
    - etransitivity; [exact Hlo|]. apply YearFromTime_mono.
      unfold msPerDay. lia.
    - etransitivity; [|exact Hhi]. apply YearFromTime_mono.
      unfold msPerDay. lia. }
  destruct (least_missing (fun i => In (key i) history)
              (fun i => List.in_dec (List.list_eq_dec Z.eq_dec) (key i) history) (S n))
    as [Hall|(k & Hk & Hin & Hout)].
  - exfalso.
    assert (Hnd : List.NoDup (map key (seq 0 (S n)))).
    { apply NoDup_map_NoDup_ForallPairs; [|apply seq_NoDup].
      intros i j Hi%in_seq Hj%in_seq E. unfold key in E.
      apply date_key_inj in E; [|apply Hrange; lia..].
      rewrite !Day_back in E. lia. }
    apply NoDup_incl_length with (l' := history) in Hnd.
    + rewrite length_map, length_seq in Hnd. fold n in Hnd. lia.
    + intros x (i & <- & Hi%in_seq)%in_map_iff. apply Hall. lia.
  - exists k. split; [lia|]. split; assumption.
Qed.

(** X27: in a zone whose offset never changes, and for dates with years
    of four digits, the run of [calculateStreak] ends within
    [length history + 1] tests and returns the number of consecutive
    calendar days, ending at the current day, that are in the
    history. *)
Theorem calculateStreak_fixed_zone (off now : Z) (history : list jsstring) :
  0 <= YearFromTime (now - Z.of_nat (length history) * msPerDay) ->
  YearFromTime now <= 9999 ->
  exists k,
    (k <= length history)%nat /\ consecutive_days history now k /\
    forall fuel, (length history < fuel)%nat ->
      calculateStreak fuel (fixed_zone off) now history = Some k.
Proof.
  intros Hlo Hhi. destruct (run_exists now history Hlo Hhi) as (k & Hk & Hrun).
  exists k. repeat split; try assumption; try apply Hrun.
  intros fuel Hfuel. apply calculateStreak_fixed_zone_run; [assumption|lia].
Qed.

Lemma calculateStreak_fixed_zone_witness :
  exists k,
    (k <= 4)%nat /\
    consecutive_days
      [js "2024-05-10"; js "2024-05-09"; js "2024-05-08"; js "2024-05-06"]
      1715342400000 k /\
    forall fuel, (4 < fuel)%nat ->
      calculateStreak fuel (fixed_zone 0) 1715342400000
        [js "2024-05-10"; js "2024-05-09"; js "2024-05-08"; js "2024-05-06"]
      = Some k.
Proof.
  apply (calculateStreak_fixed_zone 0 1715342400000
           [js "2024-05-10"; js "2024-05-09"; js "2024-05-08"; js "2024-05-06"]).
  - vm_compute. discriminate.
  - vm_compute. discriminate.
Defined.

(** C3, at the failing input.  In Berlin at 01:30 local time on
    1 April 2024 (23:30 UTC on 31 March) the history holds the key of
    the current UTC day alone: one calendar day is in it and the day
    before is not.  The walk goes back one day of local time, to 01:30
    on 31 March, which is 00:30 UTC of the same UTC day, so that the
    one key is counted twice. *)
Theorem calculateStreak_counts_day_twice :
  let now := 1711927800000 in
  let history := [js "2024-03-31"] in
  date_key now = js "2024-03-31" /\
  consecutive_days history now 1 /\
  date_key (setDate berlin_spring_2024 now
              (getDate berlin_spring_2024 now - 1)) = js "2024-03-31" /\
  calculateStreak 10 berlin_spring_2024 now history = Some 2%nat /\
  calculateStreak 10 utc now history = Some 1%nat.
Proof.
  cbv zeta. split; [reflexivity|]. split.
  - split.
    + intros i Hi. assert (i = 0%nat) as -> by lia. left. reflexivity.
    + intros [E|[]]. vm_compute in E. discriminate.
  - split; [reflexivity|]. split; vm_compute; reflexivity.
Qed.

(** *** The cached streak *)

Lemma mark_one_ok (fuel : nat) (tz : TimeZone) (now : Z)
    (habitId : jsstring) (hb hb' : habit) :
  mark_one fuel tz now habitId hb = Some hb' ->
  cache_ok tz hb -> cache_ok tz hb'.
Proof.
  unfold mark_one. intros E Hok.
  destruct (negb _); [now injection E as <-|].
  destruct (existsb _ _); [now injection E as <-|].
  destruct (calculateStreak _ _ _ _) as [k|] eqn:Ek; [|discriminate].
  injection E as <-. unfold cache_ok. cbn. now exists fuel, now.
Qed.

(** The habit that is marked gets the streak computed at that moment
    from its new history. *)
Lemma mark_one_fresh (fuel : nat) (tz : TimeZone) (now : Z) (hb hb' : habit) :
  mark_one fuel tz now (id hb) hb = Some hb' ->
  ~ In (date_key now) (history hb) ->
  history hb' = history hb ++ [date_key now] /\
  calculateStreak fuel tz now (history hb') = Some (streak hb').
Proof.
  unfold mark_one, string_eqb. intros E Hnew.
  destruct (decide (id hb = id hb)); [|congruence]. cbn [negb] in E.
  destruct (existsb _ _) eqn:Ex.
  - exfalso. apply existsb_exists in Ex as (x & Hx & Ex).
    destruct (decide (date_key now = x)) as [<-|]; [auto|discriminate].
  - destruct (calculateStreak _ _ _ _) as [k|] eqn:Ek; [|discriminate].
    injection E as <-. cbn. auto.
Qed.

Lemma new_habit_streak (fuel : nat) (tz : TimeZone) (now t : Z)
    (name : jsstring) :
  calculateStreak (S fuel) tz t (history (new_habit now name))
  = Some (streak (new_habit now name)).
Proof. apply calculateStreak_today_missing. cbn. tauto. Qed.


Lemma marked_once_reachable : reachable utc marked_once.
Proof.
  unfold reachable.
  apply (rtc_l _ _ (addHabitLocal noon_9_may (js "read") []));
    [apply step_add|].
  apply (rtc_l _ _ marked_once); [|apply rtc_refl].
  apply (step_mark utc 10 noon_9_may (js "1715256000000")).
  vm_compute. reflexivity.
Qed.



End HabitFacts.

(** ** Reports: the weekly window *)
Module ReportFacts.
Import ReportSpec.
Import Date Report DateFacts.

(** The selection keeps, in order, the entries whose date is read as
    a time value between [start] and [now], both included. *)
Lemma selected_spec (tz : TimeZone) (now : Z) (range : jsstring)
    (entries : list entry) (e : entry) :
  In e (selected tz now range entries) <->
  In e entries /\
  exists t, parse_date (date e) = Some t /\
            start tz now range <= t <= now.
Proof.
  unfold selected. rewrite filter_In. unfold in_window.
  split; intros [Hin H]; (split; [assumption|]).
  - destruct (parse_date (date e)) as [t|]; [|discriminate].
    exists t. split; [reflexivity|lia].
  - destruct H as (t & -> & Ht). lia.
Qed.

(** In a zone whose offset never changes the weekly window starts
    six times 24 hours before [now], at the same time of day. *)
Lemma start_weekly (off now : Z) :
  start (fixed_zone off) now (js "weekly") = now - 6 * msPerDay.
Proof.
  unfold start. cbv zeta.
  change (string_eqb (js "weekly") (js "weekly")) with true.
  change (string_eqb (js "weekly") (js "monthly")) with false.
  cbv iota.
  replace (getDate (fixed_zone off) now - 6)
    with (getDate (fixed_zone off) now + (-6)) by lia.
  rewrite setDate_fixed_zone. lia.
Qed.

(** A date-only string is read as midnight UTC. *)
Lemma parse_date_midnight (s : jsstring) (t : Z) :
  parse_date s = Some t -> t = Day t * msPerDay.
Proof.
  unfold parse_date. intros E.
  repeat match type of E with
         | match ?x with _ => _ end = _ => destruct x; try discriminate
         end.
  injection E as <-. unfold MakeDate, Day, msPerDay. euclid.
Qed.

(** In a zone whose offset never changes, a dated entry is in the
    weekly selection when its day is one of the five days before the
    current UTC day or the current day itself; the day six days
    before is in the selection at midnight UTC only, when the time of
    day of [now] is zero. *)
Lemma weekly_window_days (off now : Z) (e : entry) (t : Z) :
  parse_date (date e) = Some t ->
  in_window (start (fixed_zone off) now (js "weekly")) now e = true <->
  Day now - 6 < Day t <= Day now \/
  (Day t = Day now - 6 /\ TimeWithinDay now = 0).
Proof.
  intros E. rewrite start_weekly. unfold in_window. rewrite E.
  apply parse_date_midnight in E.
  unfold Day, TimeWithinDay, msPerDay in *.
  split; intros H; [|apply andb_true_intro; split; apply Z.leb_le];
    try (apply andb_prop in H as [H1%Z.leb_le H2%Z.leb_le]); euclid.
Qed.

(** C5, at the failing input: at noon UTC on 10 May 2024 the weekly
    selection holds the entries of 10 May and 5 May and drops the
    entry of 4 May, dated six days before, with the entry of 3 May;
    the entry of 4 May is read as midnight, which is before the
    start of the window at noon of 4 May.  At midnight of 10 May the
    entry of 4 May is kept. *)
Theorem weekly_report_drops_sixth_day :
  let noon := 1715342400000 in
  let midnight := 1715299200000 in
  let entries := [ dated (js "2024-05-10"); dated (js "2024-05-05");
                   dated (js "2024-05-04"); dated (js "2024-05-03") ] in
  start utc noon (js "weekly") = 1714824000000 /\
  parse_date (js "2024-05-04") = Some 1714780800000 /\
  selected utc noon (js "weekly") entries =
    [ dated (js "2024-05-10"); dated (js "2024-05-05") ] /\
  selected utc midnight (js "weekly") entries =
    [ dated (js "2024-05-10"); dated (js "2024-05-05");
      dated (js "2024-05-04") ].
Proof. cbv zeta. repeat split. Qed.

End ReportFacts.

(** ** The backup codec *)
Module CodecFacts.
Import CodecSpec.
Import Codec.

Example encode_ascii : TextEncoder_encode (js "{}") = [123; 125].
Proof. reflexivity. Qed.

(** e acute, the euro sign and an emoji outside the basic plane. *)
Example encode_mixed :
  TextEncoder_encode [0xE9; 0x20AC; 0xD83D; 0xDE00] =
  [0xC3; 0xA9; 0xE2; 0x82; 0xAC; 0xF0; 0x9F; 0x98; 0x80].
Proof. reflexivity. Qed.

Example decode_mixed :
  TextDecoder_decode [0xC3; 0xA9; 0xE2; 0x82; 0xAC; 0xF0; 0x9F; 0x98; 0x80] =
  [0xE9; 0x20AC; 0xD83D; 0xDE00].
Proof. reflexivity. Qed.

Example decode_truncated : TextDecoder_decode [0xE2; 0x82] = [0xFFFD].
Proof. reflexivity. Qed.

Example decode_overlong : TextDecoder_decode [0xC0; 0x80] = [0xFFFD; 0xFFFD].
Proof. reflexivity. Qed.

Example decode_surrogate :
  TextDecoder_decode [0xED; 0xA0; 0x80] = [0xFFFD; 0xFFFD; 0xFFFD].
Proof. reflexivity. Qed.

Example decode_restart : TextDecoder_decode [0xE2; 0x41] = [0xFFFD; 0x41].
Proof. reflexivity. Qed.

Example btoa_hello : btoa (js "hello") = Some (js "aGVsbG8=").
Proof. reflexivity. Qed.

Example btoa_hi : btoa (js "hi!!") = Some (js "aGkhIQ==").
Proof. reflexivity. Qed.

Example btoa_wide : btoa [0x20AC] = None.
Proof. reflexivity. Qed.

Example atob_hello : atob (js "aGVsbG8=") = Some (js "hello").
Proof. reflexivity. Qed.

Example atob_unpadded : atob (js " aGkh IQ") = Some (js "hi!!").
Proof. reflexivity. Qed.

Example atob_bad_length : atob (js "aGVsb") = None.
Proof. reflexivity. Qed.

Example atob_bad_char : atob (js "aG-s") = None.
Proof. reflexivity. Qed.

Example atob_bad_padding : atob (js "a===") = None.
Proof. reflexivity. Qed.

(** *** Bit operations as arithmetic *)

Lemma lor_disjoint (k x y : Z) :
  0 <= k -> x mod 2 ^ k = 0 -> 0 <= y < 2 ^ k -> Z.lor x y = x + y.
Proof.
  intros Hk Hx Hy.
  assert (Z.land x y = 0) as Hland.
  { apply Z.bits_inj'. intros n Hn. rewrite Z.land_spec, Z.bits_0.
    destruct (Z.lt_ge_cases n k) as [Hlt|Hge].
    - assert (x = x / 2 ^ k * 2 ^ k) as -> by
          (pose proof (Z.div_mod x (2 ^ k)); lia).
      now rewrite Z.mul_pow2_bits_low.
    - rewrite <- (Z.mod_small y (2 ^ k)) by lia.
      rewrite Z.mod_pow2_bits_high by lia. apply andb_false_r. }
  now rewrite <- Z.lxor_lor, Z.add_nocarry_lxor.
Qed.

Lemma land_mask (k a : Z) : 0 <= k -> Z.land a (2 ^ k - 1) = a mod 2 ^ k.
Proof.
  intros Hk. rewrite <- Z.land_ones by assumption.
  now rewrite Z.ones_equiv, Z.sub_1_r.
Qed.

Lemma land_3 a : Z.land a 3 = a mod 4.
Proof. exact (land_mask 2 a ltac:(lia)). Qed.
Lemma land_7 a : Z.land a 7 = a mod 8.
Proof. exact (land_mask 3 a ltac:(lia)). Qed.
Lemma land_15 a : Z.land a 15 = a mod 16.
Proof. exact (land_mask 4 a ltac:(lia)). Qed.
Lemma land_31 a : Z.land a 31 = a mod 32.
Proof. exact (land_mask 5 a ltac:(lia)). Qed.
Lemma land_63 a : Z.land a 63 = a mod 64.
Proof. exact (land_mask 6 a ltac:(lia)). Qed.
Lemma land_255 a : Z.land a 255 = a mod 256.
Proof. exact (land_mask 8 a ltac:(lia)). Qed.
Lemma land_1023 a : Z.land a 1023 = a mod 1024.
Proof. exact (land_mask 10 a ltac:(lia)). Qed.

Lemma shiftr_div (a k : Z) : 0 <= k -> Z.shiftr a k = a / 2 ^ k.
Proof. apply Z.shiftr_div_pow2. Qed.

Lemma shiftl_mul (a k : Z) : 0 <= k -> Z.shiftl a k = a * 2 ^ k.
Proof. apply Z.shiftl_mul_pow2. Qed.

(** Shifts and masks by the constants of the source become divisions,
    products and remainders. *)
Ltac unbits :=
  rewrite ?land_3, ?land_7, ?land_15, ?land_31, ?land_63, ?land_255, ?land_1023;
  rewrite ?shiftr_div, ?shiftl_mul by lia;
  change (2 ^ 2) with 4; change (2 ^ 4) with 16; change (2 ^ 6) with 64;
  change (2 ^ 8) with 256; change (2 ^ 10) with 1024;
  change (2 ^ 12) with 4096; change (2 ^ 16) with 65536;
  change (2 ^ 18) with 262144.

(** *** Base64 *)

Lemma b64_index_char (i : Z) : 0 <= i < 64 -> b64_index (b64_char i) = Some i.
Proof.
  intros Hi. unfold b64_char, b64_index.
  repeat match goal with
         | |- context [?a <? ?b] => destruct (Z.ltb_spec a b)
         | |- context [?a <=? ?b] => destruct (Z.leb_spec a b)
         | |- context [?a =? ?b] => destruct (Z.eqb_spec a b)
         end; cbn [andb]; try lia; f_equal; lia.
Qed.

Lemma b64_index_range (c i : Z) :
  b64_index c = Some i ->
  65 <= c <= 90 \/ 97 <= c <= 122 \/ 48 <= c <= 57 \/ c = 43 \/ c = 47.
Proof.
  unfold b64_index.
  destruct ((65 <=? c) && (c <=? 90))%bool eqn:E1; [lia|].
  destruct ((97 <=? c) && (c <=? 122))%bool eqn:E2; [lia|].
  destruct ((48 <=? c) && (c <=? 57))%bool eqn:E3; [lia|].
  destruct (Z.eqb_spec c 43); [lia|].
  destruct (Z.eqb_spec c 47); [lia|discriminate].
Qed.

Lemma b64_index_plain (c i : Z) :
  b64_index c = Some i -> is_ascii_whitespace c = false /\ c <> 61.
Proof.
  intros H%b64_index_range. split; [|lia].
  unfold is_ascii_whitespace. cbn [existsb].
  rewrite !(proj2 (Z.eqb_neq c _)) by lia. reflexivity.
Qed.

Lemma b64_char_plain (i : Z) :
  0 <= i < 64 -> is_ascii_whitespace (b64_char i) = false /\ b64_char i <> 61.
Proof. intros Hi. eapply b64_index_plain, b64_index_char, Hi. Qed.

(** Induction over a list three elements at a time. *)
Lemma list_ind3 {A : Type} (P : list A -> Prop) :
  P [] -> (forall a, P [a]) -> (forall a b, P [a; b]) ->
  (forall a b c l, P l -> P (a :: b :: c :: l)) ->
  forall l, P l.
Proof.
  intros H0 H1 H2 H3. fix IH 1.
  intros [|a [|b [|c l]]]; [exact H0|apply H1|apply H2|apply H3, IH].
Qed.

Ltac lor_add k :=
  rewrite (lor_disjoint k);
  [ | lia
    | let p := eval vm_compute in (2 ^ k) in change (2 ^ k) with p; euclid
    | let p := eval vm_compute in (2 ^ k) in change (2 ^ k) with p; euclid ].

Lemma sextet_lo (a b : Z) :
  is_byte b ->
  Z.lor (Z.shiftl (Z.land a 3) 4) (Z.shiftr b 4) = a mod 4 * 16 + b / 16.
Proof. unfold is_byte. intros Hb. unbits. now lor_add 4. Qed.

Lemma sextet_hi (b c : Z) :
  is_byte c ->
  Z.lor (Z.shiftl (Z.land b 15) 2) (Z.shiftr c 6) = b mod 16 * 4 + c / 64.
Proof. unfold is_byte. intros Hc. unbits. now lor_add 2. Qed.

Lemma b64_encode_split (bs : list Z) :
  wf_bytes bs -> b64_encode bs = map b64_char (groups bs) ++ padding bs.
Proof.
  unfold wf_bytes. induction bs as [|a|a b|a b c rest IH] using list_ind3;
    intros Hbs; cbn [b64_encode groups padding map app].
  - reflexivity.
  - unbits. reflexivity.
  - apply Forall_cons in Hbs as [_ [Hb _]%Forall_cons].
    rewrite (sextet_lo a b Hb). unbits. reflexivity.
  - apply Forall_cons in Hbs as [_ [Hb [Hc Hrest]%Forall_cons]%Forall_cons].
    rewrite (sextet_lo a b Hb), (sextet_hi b c Hc), (IH Hrest). unbits.
    reflexivity.
Qed.

Lemma groups_range (bs : list Z) :
  wf_bytes bs -> List.Forall (fun i => 0 <= i < 64) (groups bs).
Proof.
  unfold wf_bytes, is_byte.
  induction bs as [|a|a b|a b c rest IH] using list_ind3; intros Hbs;
    cbn [groups app].
  - constructor.
  - apply Forall_cons in Hbs as [Ha _]. repeat constructor; euclid.
  - apply Forall_cons in Hbs as [Ha [Hb _]%Forall_cons].
    repeat constructor; euclid.
  - apply Forall_cons in Hbs as [Ha [Hb [Hc Hrest]%Forall_cons]%Forall_cons].
    repeat (constructor; [euclid|]). auto.
Qed.

(** The shape of the output: whole groups of four, or two characters
    and two paddings, or three characters and one padding. *)
Lemma groups_length (bs : list Z) :
  exists q : nat,
    (length (groups bs) = (4 * q)%nat /\ padding bs = []) \/
    (length (groups bs) = (4 * q + 2)%nat /\ padding bs = [61; 61]) \/
    (length (groups bs) = (4 * q + 3)%nat /\ padding bs = [61]).
Proof.
  induction bs as [|a|a b|a b c rest (q & IH)] using list_ind3;
    cbn [groups padding app length].
  - exists 0%nat. auto.
  - exists 0%nat. auto.
  - exists 0%nat. auto.
  - exists (S q).
    destruct IH as [[Hl Hp]|[[Hl Hp]|[Hl Hp]]];
      [left|right; left|right; right]; (split; [lia|assumption]).
Qed.

Lemma sextets_chars (xs : list Z) :
  List.Forall (fun i => 0 <= i < 64) xs -> sextets (map b64_char xs) = Some xs.
Proof.
  induction 1 as [|i xs Hi _ IH]; [reflexivity|].
  cbn [map sextets]. now rewrite (b64_index_char i Hi), IH.
Qed.

Lemma group24 (s1 s2 s3 s4 : Z) :
  0 <= s1 < 64 -> 0 <= s2 < 64 -> 0 <= s3 < 64 -> 0 <= s4 < 64 ->
  Z.lor (Z.lor (Z.lor (Z.shiftl s1 18) (Z.shiftl s2 12)) (Z.shiftl s3 6)) s4
  = s1 * 262144 + s2 * 4096 + s3 * 64 + s4.
Proof.
  intros H1 H2 H3 H4. unbits.
  rewrite (lor_disjoint 18 (s1 * 262144) (s2 * 4096));
    [|lia|change (2 ^ 18) with 262144; euclid..].
  rewrite (lor_disjoint 12 (s1 * 262144 + s2 * 4096) (s3 * 64));
    [|lia|change (2 ^ 12) with 4096; euclid..].
  rewrite (lor_disjoint 6 (s1 * 262144 + s2 * 4096 + s3 * 64) s4);
    [|lia|change (2 ^ 6) with 64; euclid..].
  reflexivity.
Qed.

Lemma group18 (s1 s2 s3 : Z) :
  0 <= s1 < 64 -> 0 <= s2 < 64 -> 0 <= s3 < 64 ->
  Z.lor (Z.lor (Z.shiftl s1 12) (Z.shiftl s2 6)) s3
  = s1 * 4096 + s2 * 64 + s3.
Proof.
  intros H1 H2 H3. unbits.
  rewrite (lor_disjoint 12 (s1 * 4096) (s2 * 64));
    [|lia|change (2 ^ 12) with 4096; euclid..].
  rewrite (lor_disjoint 6 (s1 * 4096 + s2 * 64) s3);
    [|lia|change (2 ^ 6) with 64; euclid..].
  reflexivity.
Qed.

Lemma group12 (s1 s2 : Z) :
  0 <= s1 < 64 -> 0 <= s2 < 64 ->
  Z.lor (Z.shiftl s1 6) s2 = s1 * 64 + s2.
Proof.
  intros H1 H2. unbits.
  rewrite (lor_disjoint 6 (s1 * 64) s2);
    [|lia|change (2 ^ 6) with 64; euclid..].
  reflexivity.
Qed.

(** The groups of some bytes are read back as these bytes. *)
Lemma bytes_of_groups (bs : list Z) :
  wf_bytes bs -> bytes_of_sextets (groups bs) = bs.
Proof.
  unfold wf_bytes, is_byte.
  induction bs as [|a|a b|a b c rest IH] using list_ind3; intros Hbs;
    cbn [groups app bytes_of_sextets].
  - reflexivity.
  - apply Forall_cons in Hbs as [Ha _]. cbv zeta.
    rewrite group12 by euclid. unbits. f_equal. euclid.
  - apply Forall_cons in Hbs as [Ha [Hb _]%Forall_cons]. cbv zeta.
    rewrite group18 by euclid. unbits. f_equal; [euclid|]. f_equal. euclid.
  - apply Forall_cons in Hbs as [Ha [Hb [Hc Hrest]%Forall_cons]%Forall_cons].
    cbv zeta. rewrite group24 by euclid. rewrite (IH Hrest). unbits.
    cbn [app]. f_equal; [euclid|]. f_equal; [euclid|]. f_equal. euclid.
Qed.

Lemma strip_padding_body (body pad : jsstring) :
  List.Forall (fun c => c <> 61) body ->
  pad = [] \/ pad = [61] \/ pad = [61; 61] ->
  Z.of_nat (length (body ++ pad)) mod 4 = 0 ->
  strip_padding (body ++ pad) = body.
Proof.
  intros Hbody Hpad Hlen. unfold strip_padding.
  rewrite Hlen, Z.eqb_refl, rev_app_distr.
  assert (Hrev : List.Forall (fun c => c <> 61) (rev body))
    by (apply List.Forall_rev; exact Hbody).
  destruct Hpad as [->|[->| ->]]; cbn [rev app].
  - rewrite app_nil_r.
    destruct (rev body) as [|p [|q r]] eqn:E; [reflexivity| |].
    + apply Forall_cons in Hrev as [Hp _].
      now destruct (Z.eqb_spec p 61).
    + apply Forall_cons in Hrev as [Hp _].
      destruct (Z.eqb_spec p 61); [contradiction|reflexivity].
  - destruct (rev body) as [|q r] eqn:E.
    + apply (f_equal (@rev Z)) in E. rewrite rev_involutive in E.
      subst body. cbn in Hlen. discriminate.
    + apply Forall_cons in Hrev as [Hq _]. cbn [Z.eqb andb].
      destruct (Z.eqb_spec q 61); [contradiction|]. cbn [andb Pos.eqb].
      apply (f_equal (@rev Z)) in E. rewrite rev_involutive in E.
      rewrite E. reflexivity.
  - cbn. apply rev_involutive.
Qed.

(** Base64: what [b64_encode] prints, [atob] reads back. *)
Lemma atob_b64_encode (bs : list Z) :
  wf_bytes bs -> atob (b64_encode bs) = Some bs.
Proof.
  intros Hbs. rewrite (b64_encode_split bs Hbs).
  pose proof (groups_range bs Hbs) as Hrange.
  assert (Hplain : List.Forall (fun c => is_ascii_whitespace c = false /\ c <> 61)
                     (map b64_char (groups bs))).
  { apply List.Forall_map. eapply List.Forall_impl; [|exact Hrange].
    intros i Hi. now apply b64_char_plain. }
  destruct (groups_length bs) as (q & Hshape).
  assert (Hpad : padding bs = [] \/ padding bs = [61] \/ padding bs = [61; 61])
    by tauto.
  unfold atob.
  rewrite forallb_filter_id.
  2:{ rewrite forallb_app. apply andb_true_intro. split.
      - apply forallb_forall. intros c Hc.
        apply (proj1 (List.Forall_forall _ _) Hplain) in Hc as [-> _].
        reflexivity.
      - destruct Hpad as [->|[->| ->]]; reflexivity. }
  rewrite strip_padding_body; [| |exact Hpad|].
  - rewrite length_map.
    replace (Z.of_nat (length (groups bs)) mod 4 =? 1) with false.
    + rewrite (sextets_chars _ Hrange). cbn [option_map].
      now rewrite (bytes_of_groups bs Hbs).
    + symmetry. apply Z.eqb_neq.
      destruct Hshape as [[-> _]|[[-> _]|[-> _]]]; euclid.
  - eapply List.Forall_impl; [|exact Hplain]. cbn. tauto.
  - rewrite length_app, length_map.
    destruct Hshape as [[-> ->]|[[-> ->]|[-> ->]]]; cbn [length]; euclid.
Qed.

Lemma wf_bytes_btoa_ok (bs : list Z) :
  wf_bytes bs -> forallb (fun c => (0 <=? c) && (c <=? 255))%bool bs = true.
Proof.
  intros H. apply forallb_forall. intros c Hc.
  apply (proj1 (List.Forall_forall _ _) H) in Hc. unfold is_byte in Hc. lia.
Qed.

Lemma fromCharCode_bytes (bs : list Z) :
  wf_bytes bs -> String_fromCharCode bs = bs.
Proof.
  unfold String_fromCharCode. induction 1 as [|b bs Hb _ IH]; [reflexivity|].
  cbn [map]. rewrite IH. f_equal. unfold is_byte in Hb. euclid.
Qed.

Lemma Uint8Array_from_bytes (bs : list Z) :
  wf_bytes bs -> Uint8Array_from bs = bs.
Proof.
  unfold Uint8Array_from. induction 1 as [|b bs Hb _ IH]; [reflexivity|].
  cbn [map]. rewrite IH. f_equal. unfold is_byte in Hb. euclid.
Qed.

(** [atob] undoes [btoa] on a string of bytes. *)
Lemma atob_btoa (bs : list Z) :
  wf_bytes bs ->
  exists b64, btoa (String_fromCharCode bs) = Some b64 /\ atob b64 = Some bs.
Proof.
  intros Hbs. exists (b64_encode bs). rewrite (fromCharCode_bytes bs Hbs).
  unfold btoa. rewrite (wf_bytes_btoa_ok bs Hbs).
  split; [reflexivity|]. now apply atob_b64_encode.
Qed.

(** *** UTF-8 *)

Lemma lor_128 (y : Z) : 0 <= y < 64 -> Z.lor 128 y = 128 + y.
Proof.
  intros Hy. apply (lor_disjoint 7); [lia|reflexivity|].
  change (2 ^ 7) with 128. lia.
Qed.

Lemma utf8_bytes_arith (cp : Z) :
  utf8_bytes cp =
  if cp <=? 0x7F then [cp]
  else if cp <=? 0x7FF then [cp / 64 + 192; 128 + cp mod 64]
  else if cp <=? 0xFFFF then
    [cp / 4096 + 224; 128 + (cp / 64) mod 64; 128 + cp mod 64]
  else
    [cp / 262144 + 240; 128 + (cp / 4096) mod 64; 128 + (cp / 64) mod 64;
     128 + cp mod 64].
Proof.
  unfold utf8_bytes. unbits. rewrite !lor_128 by euclid. reflexivity.
Qed.

Lemma utf8_bytes_wf (cp : Z) : scalar cp -> wf_bytes (utf8_bytes cp).
Proof.
  unfold scalar, wf_bytes, is_byte. intros [Hr _]. rewrite utf8_bytes_arith.
  repeat match goal with
         | |- context [?a <=? ?b] => destruct (Z.leb_spec a b)
         end; repeat (constructor; [euclid|]); constructor.
Qed.

Lemma decode_ascii (b : Z) :
  0 <= b <= 0x7F -> decode_byte decoder_start b = (decoder_start, [b]).
Proof.
  intros Hb. unfold decode_byte, lead_byte. cbn [bytes_needed decoder_start].
  cbn [Z.eqb].
  destruct (Z.leb_spec 0 b); [|lia]. destruct (Z.leb_spec b 0x7F); [|lia].
  reflexivity.
Qed.

Lemma decode_lead2 (b : Z) :
  0xC2 <= b <= 0xDF ->
  decode_byte decoder_start b =
  ({| code_point := b mod 32; bytes_seen := 0; bytes_needed := 1;
      lower_boundary := 0x80; upper_boundary := 0xBF |}, []).
Proof.
  intros Hb. unfold decode_byte, lead_byte. cbn [bytes_needed decoder_start].
  cbn [Z.eqb]. unbits.
  destruct (Z.leb_spec b 0x7F); [lia|]. rewrite andb_false_r.
  destruct (Z.leb_spec 0xC2 b); [|lia]. destruct (Z.leb_spec b 0xDF); [|lia].
  reflexivity.
Qed.

Lemma decode_lead3 (b : Z) :
  0xE0 <= b <= 0xEF ->
  decode_byte decoder_start b =
  ({| code_point := b mod 16; bytes_seen := 0; bytes_needed := 2;
      lower_boundary := if b =? 0xE0 then 0xA0 else 0x80;
      upper_boundary := if b =? 0xED then 0x9F else 0xBF |}, []).
Proof.
  intros Hb. unfold decode_byte, lead_byte. cbn [bytes_needed decoder_start].
  cbn [Z.eqb]. unbits.
  destruct (Z.leb_spec b 0x7F); [lia|]. rewrite andb_false_r.
  destruct (Z.leb_spec b 0xDF); [lia|]. rewrite andb_false_r.
  destruct (Z.leb_spec 0xE0 b); [|lia]. destruct (Z.leb_spec b 0xEF); [|lia].
  reflexivity.
Qed.

Lemma decode_lead4 (b : Z) :
  0xF0 <= b <= 0xF4 ->
  decode_byte decoder_start b =
  ({| code_point := b mod 8; bytes_seen := 0; bytes_needed := 3;
      lower_boundary := if b =? 0xF0 then 0x90 else 0x80;
      upper_boundary := if b =? 0xF4 then 0x8F else 0xBF |}, []).
Proof.
  intros Hb. unfold decode_byte, lead_byte. cbn [bytes_needed decoder_start].
  cbn [Z.eqb]. unbits.
  destruct (Z.leb_spec b 0x7F); [lia|]. rewrite andb_false_r.
  destruct (Z.leb_spec b 0xDF); [lia|]. rewrite andb_false_r.
  destruct (Z.leb_spec b 0xEF); [lia|]. rewrite andb_false_r.
  destruct (Z.leb_spec 0xF0 b); [|lia]. destruct (Z.leb_spec b 0xF4); [|lia].
  reflexivity.
Qed.

(** A continuation byte within the boundaries adds its six bits. *)
Lemma decode_continuation (st : decoder) (b : Z) :
  bytes_needed st <> 0 -> lower_boundary st <= b <= upper_boundary st ->
  decode_byte st b =
  let cp := code_point st * 64 + b mod 64 in
  if bytes_seen st + 1 =? bytes_needed st then (decoder_start, [cp])
  else ({| code_point := cp; bytes_seen := bytes_seen st + 1;
           bytes_needed := bytes_needed st;
           lower_boundary := 0x80; upper_boundary := 0xBF |}, []).
Proof.
  intros Hn Hb. unfold decode_byte.
  destruct (Z.eqb_spec (bytes_needed st) 0); [contradiction|].
  destruct (Z.ltb_spec b (lower_boundary st)); [lia|].
  destruct (Z.ltb_spec (upper_boundary st) b); [lia|]. cbn [orb].
  unbits. rewrite (lor_disjoint 6); [reflexivity|lia| |];
    change (2 ^ 6) with 64; euclid.
Qed.

Ltac boundaries :=
  cbn [bytes_needed bytes_seen lower_boundary upper_boundary code_point];
  repeat match goal with
         | |- context [?a =? ?b] => destruct (Z.eqb_spec a b)
         end;
  try discriminate; euclid.

Ltac continuation :=
  rewrite decode_continuation by boundaries;
  cbn [bytes_needed bytes_seen lower_boundary upper_boundary code_point];
  cbv zeta;
  repeat match goal with
         | |- context [?a + 1 =? ?b] =>
             let v := eval vm_compute in (a + 1 =? b) in
             change (a + 1 =? b) with v
         | |- context [?a + 1] =>
             let v := eval vm_compute in (a + 1) in change (a + 1) with v
         end;
  cbv iota; cbn [app].

(** The decoder reads the bytes of a scalar value as this value and is
    back at its start. *)
Lemma decode_scalar (cp : Z) (rest : list Z) :
  scalar cp ->
  decode_from decoder_start (utf8_bytes cp ++ rest) =
  cp :: decode_from decoder_start rest.
Proof.
  unfold scalar. intros [Hr Hs]. rewrite utf8_bytes_arith.
  destruct (Z.leb_spec cp 0x7F);
    [|destruct (Z.leb_spec cp 0x7FF); [|destruct (Z.leb_spec cp 0xFFFF)]];
    cbn [app decode_from].
  - now rewrite decode_ascii by lia.
  - rewrite decode_lead2 by euclid. cbn [app decode_from].
    continuation. f_equal. euclid.
  - rewrite decode_lead3 by euclid. cbn [app decode_from].
    continuation. cbn [decode_from]. continuation. f_equal. euclid.
  - rewrite decode_lead4 by euclid. cbn [app decode_from].
    continuation. cbn [decode_from]. continuation. cbn [decode_from].
    continuation. f_equal. euclid.
Qed.

Lemma utf8_decode_encode (cps : list Z) :
  List.Forall scalar cps -> utf8_decode (flat_map utf8_bytes cps) = cps.
Proof.
  unfold utf8_decode. induction 1 as [|cp cps Hcp _ IH]; [reflexivity|].
  cbn [flat_map]. now rewrite (decode_scalar cp _ Hcp), IH.
Qed.

Lemma scalar_values_unit (c : Z) (s : jsstring) :
  ~ (0xD800 <= c <= 0xDFFF) -> scalar_values (c :: s) = c :: scalar_values s.
Proof.
  intros Hc. cbn [scalar_values]. unfold is_high, is_low.
  destruct (Z.leb_spec 0xD800 c), (Z.leb_spec c 0xDBFF),
    (Z.leb_spec 0xDC00 c), (Z.leb_spec c 0xDFFF); cbn [andb];
    try reflexivity; lia.
Qed.

Lemma scalar_values_pair (h l : Z) (s : jsstring) :
  0xD800 <= h <= 0xDBFF -> 0xDC00 <= l <= 0xDFFF ->
  scalar_values (h :: l :: s) =
  (0x10000 + (h - 0xD800) * 1024 + (l - 0xDC00)) :: scalar_values s.
Proof.
  intros Hh Hl. cbn [scalar_values]. unfold is_high, is_low.
  destruct (Z.leb_spec 0xD800 h), (Z.leb_spec h 0xDBFF),
    (Z.leb_spec 0xDC00 l), (Z.leb_spec l 0xDFFF); cbn [andb]; try lia.
  unbits. reflexivity.
Qed.

Lemma well_formed_scalars (s : jsstring) :
  well_formed s -> List.Forall scalar (scalar_values s).
Proof.
  unfold scalar. induction 1 as [|c s Hc Hn _ IH|h l s Hh Hl _ IH].
  - constructor.
  - rewrite scalar_values_unit by assumption. constructor; [lia|assumption].
  - rewrite scalar_values_pair by assumption. constructor; [lia|assumption].
Qed.

(** The code units of the scalar values of a well-formed string are the
    string. *)
Lemma units_of_scalar_values (s : jsstring) :
  well_formed s -> flat_map utf16_units (scalar_values s) = s.
Proof.
  induction 1 as [|c s Hc Hn _ IH|h l s Hh Hl _ IH].
  - reflexivity.
  - rewrite scalar_values_unit by assumption. cbn [flat_map]. rewrite IH.
    unfold utf16_units. destruct (Z.ltb_spec c 0x10000); [reflexivity|lia].
  - rewrite scalar_values_pair by assumption. cbn [flat_map]. rewrite IH.
    unfold utf16_units.
    destruct (Z.ltb_spec (0x10000 + (h - 0xD800) * 1024 + (l - 0xDC00)) 0x10000);
      [lia|].
    unbits. cbn [app]. f_equal; [euclid|]. f_equal. euclid.
Qed.

Lemma encode_wf_bytes (s : jsstring) :
  well_formed s -> wf_bytes (TextEncoder_encode s).
Proof.
  intros Hs%well_formed_scalars. unfold TextEncoder_encode, wf_bytes.
  induction Hs as [|cp cps Hcp _ IH]; [constructor|].
  cbn [flat_map]. apply Forall_app. split; [|exact IH].
  now apply utf8_bytes_wf.
Qed.

(** The text decoder undoes the text encoder on a well-formed string
    that does not start with a byte order mark. *)
Lemma decode_encode (s : jsstring) :
  well_formed s -> no_bom s -> TextDecoder_decode (TextEncoder_encode s) = s.
Proof.
  intros Hs Hbom. unfold TextDecoder_decode, TextEncoder_encode.
  rewrite (utf8_decode_encode _ (well_formed_scalars s Hs)).
  rewrite <- (units_of_scalar_values s Hs) at 2. f_equal.
  destruct Hs as [|c s Hc Hn Hs|h l s Hh Hl Hs]; [reflexivity| |].
  - rewrite scalar_values_unit by assumption. cbn in Hbom.
    destruct (Z.eqb_spec c 0xFEFF); [contradiction|reflexivity].
  - rewrite scalar_values_pair by assumption.
    destruct (Z.eqb_spec (0x10000 + (h - 0xD800) * 1024 + (l - 0xDC00)) 0xFEFF);
      [lia|reflexivity].
Qed.

Lemma wf_string_scalars_bounded (n : nat) :
  forall s : jsstring,
    (length s <= n)%nat -> wf_string s -> List.Forall scalar (scalar_values s).
Proof.
  unfold wf_string, is_codeunit, scalar.
  induction n as [|n IH]; intros [|c s] Hlen Hwf; try constructor;
    cbn [length] in Hlen; try lia.
  apply Forall_cons in Hwf as [Hc Hs]. cbn [scalar_values].
  unfold is_high, is_low.
  destruct ((0xD800 <=? c) && (c <=? 0xDBFF))%bool eqn:Eh.
  - destruct s as [|d s]; [repeat constructor; lia|].
    apply Forall_cons in Hs as [Hd Hs']. cbn [length] in Hlen.
    destruct ((0xDC00 <=? d) && (d <=? 0xDFFF))%bool eqn:El.
    + constructor; [unbits; lia|]. apply IH; [lia|assumption].
    + constructor; [lia|]. apply IH; [cbn [length]; lia|].
      constructor; assumption.
  - destruct ((0xDC00 <=? c) && (c <=? 0xDFFF))%bool eqn:El;
      (constructor; [lia|apply IH; [lia|assumption]]).
Qed.

(** The encoder gives bytes for every string. *)
Lemma encode_bytes (s : jsstring) :
  wf_string s -> wf_bytes (TextEncoder_encode s).
Proof.
  intros Hs. unfold TextEncoder_encode, wf_bytes.
  pose proof (wf_string_scalars_bounded (length s) s (le_n _) Hs) as H.
  induction H as [|cp cps Hcp _ IH]; [constructor|].
  cbn [flat_map]. apply Forall_app. split; [|exact IH].
  now apply utf8_bytes_wf.
Qed.

Lemma shift_cipher_laws : AesGcmLaws shift_cipher.
Proof.
  split; cbn [shift_cipher subtle_encrypt subtle_decrypt CryptoKey].
  - intros k iv pt. apply Forall_app. split.
    + apply List.Forall_map, List.Forall_forall. intros b _.
      unfold is_byte. euclid.
    + repeat constructor; euclid.
  - intros k iv pt _ Hpt. rewrite rev_app_distr. cbn [rev app].
    rewrite Z.eqb_refl, rev_involutive, map_map. f_equal.
    induction Hpt as [|b pt Hb _ IH]; [reflexivity|].
    cbn [map]. rewrite IH. f_equal. unfold is_byte in Hb. euclid.
Qed.

(** *** The round trip *)

Section RoundTrip.

Context (A : AesGcm) (laws : AesGcmLaws A).

Lemma firstn_12_app (iv ct : list Z) :
  length iv = 12%nat -> firstn 12 (iv ++ ct) = iv /\ skipn 12 (iv ++ ct) = ct.
Proof.
  intros H. split.
  - rewrite <- H, firstn_app, Nat.sub_diag, firstn_all. cbn. apply app_nil_r.
  - rewrite <- H, skipn_app, Nat.sub_diag, skipn_all. reflexivity.
Qed.

(** The payload of an encryption is the base64 text of the nonce
    followed by the ciphertext, and [atob] reads these bytes back. *)
Lemma encryptString_payload (random : list Z) (key : CryptoKey A)
    (plaintext : jsstring) :
  wf_bytes random ->
  exists payload,
    encryptString A random key plaintext = Ok payload /\
    atob payload =
      Some (random ++ subtle_encrypt A key random (TextEncoder_encode plaintext)).
Proof using laws.
  intros Hiv. unfold encryptString. cbv zeta.
  destruct (atob_btoa (random ++ subtle_encrypt A key random
                                   (TextEncoder_encode plaintext)))
    as (b64 & Hb & Ha).
  { apply Forall_app. split; [exact Hiv|apply (encrypt_bytes A laws)]. }
  exists b64. now rewrite Hb.
Qed.



(** For every string the round trip gives the text that the decoder
    reads from the bytes of the encoder. *)
Lemma decrypt_encrypt_text (random : list Z) (key : CryptoKey A)
    (plaintext : jsstring) :
  length random = 12%nat -> wf_bytes random -> wf_string plaintext ->
  exists payload,
    encryptString A random key plaintext = Ok payload /\
    decryptString A key payload =
      Ok (TextDecoder_decode (TextEncoder_encode plaintext)).
Proof using laws.
  intros Hlen Hiv Hwf.
  destruct (encryptString_payload random key plaintext Hiv)
    as (payload & Henc & Hatob).
  exists payload. split; [exact Henc|].
  unfold decryptString. rewrite Hatob. cbv zeta.
  rewrite Uint8Array_from_bytes.
  2:{ apply Forall_app. split; [exact Hiv|apply (encrypt_bytes A laws)]. }
  destruct (firstn_12_app random
              (subtle_encrypt A key random (TextEncoder_encode plaintext)) Hlen)
    as [-> ->].
  now rewrite (decrypt_encrypt A laws) by (assumption || now apply encode_bytes).
Qed.

(** Whatever the cipher, a byte order mark at the start of the
    plaintext is lost ... *)
Lemma decode_encode_bom (s : jsstring) :
  well_formed s -> TextDecoder_decode (TextEncoder_encode (0xFEFF :: s)) = s.
Proof.
  intros Hs. unfold TextDecoder_decode, TextEncoder_encode.
  rewrite scalar_values_unit by lia.
  rewrite utf8_decode_encode.
  - rewrite Z.eqb_refl. now apply units_of_scalar_values.
  - constructor; [unfold scalar; lia|now apply well_formed_scalars].
Qed.

(** ... and a surrogate without its partner comes back as [U+FFFD]. *)
Lemma decode_encode_lone_surrogate (c : Z) :
  0xD800 <= c <= 0xDFFF -> TextDecoder_decode (TextEncoder_encode [c]) = [0xFFFD].
Proof.
  intros Hc. unfold TextEncoder_encode. cbn [scalar_values].
  unfold is_high, is_low.
  destruct ((0xD800 <=? c) && (c <=? 0xDBFF))%bool eqn:Eh; [reflexivity|].
  destruct ((0xDC00 <=? c) && (c <=? 0xDFFF))%bool eqn:El; [reflexivity|lia].
Qed.

(** When the cipher rejects the ciphertext, [decryptString] ends with
    the OperationError and gives no text.  This and the three lemmas
    after it are the share of the code in C4; that a wrong key makes
    the cipher reject is a property of AES-GCM. *)
Lemma decryptString_rejected (key : CryptoKey A) (payload : jsstring)
    (bin : list Z) :
  atob payload = Some bin ->
  subtle_decrypt A key (firstn 12 (Uint8Array_from bin))
                 (skipn 12 (Uint8Array_from bin)) = None ->
  decryptString A key payload = Err OperationError.
Proof. intros Ha Hd. unfold decryptString. now rewrite Ha, Hd. Qed.

(** [decryptString] gives a text only when the cipher has accepted the
    ciphertext, and the text is the decoding of what the cipher
    returned. *)
Lemma decryptString_ok (key : CryptoKey A) (payload text : jsstring) :
  decryptString A key payload = Ok text ->
  exists bin pt,
    atob payload = Some bin /\
    subtle_decrypt A key (firstn 12 (Uint8Array_from bin))
                   (skipn 12 (Uint8Array_from bin)) = Some pt /\
    text = TextDecoder_decode pt.
Proof.
  unfold decryptString. destruct (atob payload) as [bin|]; [|discriminate].
  cbv zeta. destruct (subtle_decrypt _ _ _ _) as [pt|] eqn:E; [|discriminate].
  intros [= <-]. now exists bin, pt.
Qed.

(** A restore whose decryption fails changes nothing and reports the
    failure. *)
Lemma downloadBackup_crypto_failure (uid : jsstring) (key : CryptoKey A)
    (fetch : jsstring -> result jsstring jsstring)
    (parse : jsstring ->
             option (option (list entry) * option (list Habits.habit)))
    (st : snapshot) (payload : jsstring) (e : error) :
  fetch uid = Ok payload -> decryptString A key payload = Err e ->
  downloadBackup A true (Some uid) (Some key) fetch parse st =
  (st, RestoreFailed (CryptoError e)).
Proof. intros Hf Hd. unfold downloadBackup. cbn. now rewrite Hf, Hd. Qed.

(** A restore whose text does not parse changes nothing either. *)
Lemma downloadBackup_parse_failure (uid : jsstring) (key : CryptoKey A)
    (fetch : jsstring -> result jsstring jsstring)
    (parse : jsstring ->
             option (option (list entry) * option (list Habits.habit)))
    (st : snapshot) (payload text : jsstring) :
  fetch uid = Ok payload -> decryptString A key payload = Ok text ->
  parse text = None ->
  downloadBackup A true (Some uid) (Some key) fetch parse st =
  (st, RestoreFailed ParseError).
Proof.
  intros Hf Hd Hp. unfold downloadBackup. cbn. now rewrite Hf, Hd, Hp.
Qed.

End RoundTrip.

Example roundtrip_json :
  encryptString shift_cipher nonce_a 7 (js "{}") = Ok (js "AQIDBAUGBwgJCgsMgoQH") /\
  decryptString shift_cipher 7 (js "AQIDBAUGBwgJCgsMgoQH") = Ok (js "{}").
Proof. split; vm_compute; reflexivity. Qed.

Example wrong_key_rejected :
  decryptString shift_cipher 8 (js "AQIDBAUGBwgJCgsMgoQH") = Err OperationError.
Proof. vm_compute. reflexivity. Qed.




End CodecFacts.

(** ** The Pomodoro timer *)
Module PomodoroFacts.
Import Pomodoro.

Lemma is_work : string_eqb (js "work") (js "work") = true.
Proof. reflexivity. Qed.

Lemma break_is_not_work : string_eqb (js "break") (js "work") = false.
Proof. reflexivity. Qed.

(** X1: in every state of the timer the mode is work with 1 to 1500
    seconds left or break with 1 to 300 seconds left, and a timer that
    does not run is in the state of a full work phase. *)
Theorem pomodoro_bounds (p : pomodoro) :
  reachable p ->
  ((mode p = js "work" /\ 1 <= remaining p <= 1500) \/
   (mode p = js "break" /\ 1 <= remaining p <= 300)) /\
  (running p = false -> p = stopped).
Proof.
  induction 1 as [|p _ _|p _ _|p _ [IH _] Hrun].
  - split; [left; cbn; split; [reflexivity|lia]|reflexivity].
  - split; [left; cbn; split; [reflexivity|lia]|discriminate].
  - split; [left; cbn; split; [reflexivity|lia]|reflexivity].
  - split.
    + unfold tick. destruct (Z.leb_spec (remaining p) 1) as [Hle|Hgt];
        destruct IH as [[Hm Hr]|[Hm Hr]]; rewrite Hm;
        cbn [mode remaining].
      * right. rewrite is_work, break_is_not_work. split; [reflexivity|lia].
      * left. rewrite break_is_not_work, is_work. split; [reflexivity|lia].
      * left. split; [reflexivity|lia].
      * right. split; [reflexivity|lia].
    + unfold tick. destruct (remaining p <=? 1); cbn; congruence.
Qed.

Lemma pomodoro_bounds_witness :
  ((mode (tick started) = js "work" /\ 1 <= remaining (tick started) <= 1500) \/
   (mode (tick started) = js "break" /\ 1 <= remaining (tick started) <= 300)) /\
  (running (tick started) = false -> tick started = stopped).
Proof.
  apply (pomodoro_bounds (tick started)).
  apply reach_tick; [apply (reach_start stopped), reach_first|reflexivity].
Defined.

(** While more than one second is left, [k] ticks take [k] seconds off
    and change nothing else. *)
Lemma countdown (k : nat) :
  forall p : pomodoro,
    Z.of_nat k < remaining p ->
    Nat.iter k tick p =
    {| running := running p; mode := mode p;
       remaining := remaining p - Z.of_nat k |}.
Proof.
  induction k as [|k IH]; intros p Hk.
  - cbn. destruct p. cbn. f_equal. lia.
  - rewrite Nat.iter_succ, IH by lia. unfold tick at 1. cbn.
    destruct (Z.leb_spec (remaining p - Z.of_nat k) 1); [lia|].
    f_equal. lia.
Qed.

(** The last tick of a phase. *)
Lemma phase_end (p : pomodoro) (r : nat) :
  remaining p = Z.of_nat r -> (1 <= r)%nat ->
  Nat.iter r tick p =
  {| running := running p;
     mode := if string_eqb (mode p) (js "work") then js "break" else js "work";
     remaining :=
       if string_eqb (mode p) (js "work") then 300 else 1500 |}.
Proof.
  intros Hr Hpos. destruct r as [|r]; [lia|].
  rewrite Nat.iter_succ, countdown by lia. unfold tick.
  cbn [running mode remaining].
  destruct (Z.leb_spec (remaining p - Z.of_nat r) 1); [|lia].
  now destruct (string_eqb (mode p) (js "work")).
Qed.

(** X2: a work phase with [r] seconds left ends after exactly [r]
    ticks, in a break of 300 seconds; a break with [r] seconds left
    ends after exactly [r] ticks, in a work phase of 1500 seconds; so
    1800 ticks after Start the timer is in the state of Start again. *)
Theorem pomodoro_phases (p : pomodoro) (r : nat) :
  remaining p = Z.of_nat r -> (1 <= r)%nat ->
  (forall k, (k < r)%nat -> mode (Nat.iter k tick p) = mode p) /\
  (mode p = js "work" ->
   Nat.iter r tick p =
   {| running := running p; mode := js "break"; remaining := 300 |}) /\
  (mode p = js "break" ->
   Nat.iter r tick p =
   {| running := running p; mode := js "work"; remaining := 1500 |}) /\
  Nat.iter 1800 tick started = started.
Proof.
  intros Hr Hpos. split; [|split; [|split]].
  - intros k Hk. now rewrite countdown by lia.
  - intros Hm. rewrite (phase_end p r Hr Hpos), Hm. reflexivity.
  - intros Hm. rewrite (phase_end p r Hr Hpos), Hm. reflexivity.
  - change 1800%nat with (300 + 1500)%nat. rewrite Nat.iter_add.
    rewrite (phase_end started 1500) by (reflexivity || lia).
    rewrite (phase_end _ 300) by (reflexivity || lia). reflexivity.
Qed.

Lemma pomodoro_phases_witness :
  Nat.iter 1500 tick started =
  {| running := true; mode := js "break"; remaining := 300 |}.
Proof.
  apply (pomodoro_phases started 1500); [reflexivity|lia|reflexivity].
Defined.

End PomodoroFacts.

(** ** Tags, removal and the filter bar *)
Module EntriesFacts.
Import Num Date Form Entries.

(** *** [trim] *)

Lemma trim_start_head (s : jsstring) (c : Z) (r : jsstring) :
  trim_start s = c :: r -> is_space c = false.
Proof.
  induction s as [|a s IH]; cbn [trim_start]; [discriminate|].
  destruct (is_space a) eqn:E; [exact IH|]. now intros [= <- <-].
Qed.

Lemma trim_start_suffix (s : jsstring) :
  exists p, s = p ++ trim_start s.
Proof.
  induction s as [|a s [p IH]]; [now exists []|]. cbn [trim_start].
  destruct (is_space a); [|now exists []].
  exists (a :: p). cbn [app]. now f_equal.
Qed.

Lemma trim_start_In (c : Z) (s : jsstring) : In c (trim_start s) -> In c s.
Proof.
  destruct (trim_start_suffix s) as [p E]. intros H. rewrite E.
  apply in_or_app. now right.
Qed.

Lemma trim_In (c : Z) (s : jsstring) : In c (trim s) -> In c s.
Proof.
  unfold trim. intros H. apply in_rev in H. apply trim_start_In in H.
  apply in_rev in H. now apply trim_start_In.
Qed.

Lemma trim_first (s : jsstring) (c : Z) (r : jsstring) :
  trim s = c :: r -> is_space c = false.
Proof.
  unfold trim. intros E.
  destruct (trim_start_suffix (rev (trim_start s))) as [p Hp].
  apply (f_equal (@rev Z)) in Hp. rewrite rev_involutive, rev_app_distr, E in Hp.
  cbn [app] in Hp. now apply (trim_start_head s c (r ++ rev p)).
Qed.

Lemma trim_last (s : jsstring) (r : jsstring) (c : Z) :
  trim s = r ++ [c] -> is_space c = false.
Proof.
  unfold trim. intros E. apply (f_equal (@rev Z)) in E.
  rewrite rev_involutive, rev_app_distr in E. cbn [rev app] in E.
  now apply (trim_start_head _ _ _ E).
Qed.

(** *** [split] *)

Lemma split_no_separator (sep : Z) (s : jsstring) :
  List.Forall (fun piece => ~ In sep piece) (split sep s).
Proof.
  induction s as [|c s IH]; cbn [split].
  - constructor; [intros []|constructor].
  - destruct (Z.eqb_spec c sep) as [->|Hne].
    + constructor; [intros []|exact IH].
    + destruct (split sep s) as [|piece pieces].
      * constructor; [|constructor]. intros [H|[]]. congruence.
      * inversion IH as [|? ? Hp Hps]; subst. constructor; [|exact Hps].
        intros [H|H]; [congruence|contradiction].
Qed.

(** X3: every tag of the entry that [addEntry] builds is non-empty,
    holds no comma, and neither starts nor ends with white space. *)
Theorem addEntry_tags_clean (now : Z) (f : form) :
  List.Forall
    (fun t =>
       t <> [] /\ ~ In 44 t /\
       (forall c r, t = c :: r -> is_space c = false) /\
       (forall r c, t = r ++ [c] -> is_space c = false))
    (tags (newEntry now f)).
Proof.
  cbn [newEntry tags]. apply List.Forall_forall. intros t Ht.
  apply filter_In in Ht. destruct Ht as [Ht Hne].
  apply in_map_iff in Ht. destruct Ht as (piece & <- & Hpiece).
  pose proof (split_no_separator 44 (f_tags f)) as Hsep.
  rewrite List.Forall_forall in Hsep. specialize (Hsep piece Hpiece).
  split; [|split; [|split]].
  - intros E. rewrite E in Hne. discriminate.
  - intros H. apply Hsep. now apply trim_In.
  - intros c r E. now apply (trim_first piece c r).
  - intros r c E. now apply (trim_last piece r c).
Qed.

(** *** Identifiers *)

Lemma js_inj (a b : string) : js a = js b -> a = b.
Proof.
  unfold js. intros E.
  rewrite <- (string_of_list_ascii_of_string a),
          <- (string_of_list_ascii_of_string b).
  f_equal. revert E.
  generalize (list_ascii_of_string a) (list_ascii_of_string b).
  intros l1. induction l1 as [|x l1 IH]; intros [|y l2] E;
    try discriminate; [reflexivity|].
  cbn [map] in E. injection E as Exy E. f_equal; [|now apply IH].
  apply N2Z.inj in Exy.
  rewrite <- (ascii_N_embedding x), <- (ascii_N_embedding y). now f_equal.
Qed.

Lemma to_int_normal (z : Z) :
  Z.to_int z <> Decimal.Pos Decimal.Nil /\ Z.to_int z <> Decimal.Neg Decimal.Nil.
Proof.
  split; intros E; pose proof (f_equal Z.of_int E) as Ez;
    rewrite DecimalZ.of_to in Ez; cbn in Ez; subst z; discriminate.
Qed.

(** The decimal strings of two integers differ when the integers
    do. *)
Lemma decimal_inj (a b : Z) : decimal a = decimal b -> a = b.
Proof.
  unfold decimal. intros E. apply js_inj in E.
  apply (f_equal NilZero.int_of_string) in E.
  destruct (to_int_normal a) as [Ha1 Ha2], (to_int_normal b) as [Hb1 Hb2].
  rewrite !NilZero.isi in E by assumption. injection E as E.
  apply (f_equal Z.of_int) in E. now rewrite !DecimalZ.of_to in E.
Qed.

(** X4: a confirmed [removeEntry] with the identifier of the entries
    made at one reading of the clock removes exactly the entries made
    at that reading: an entry made by [addEntry] at the time [t] is
    left if and only if [t] is another time. *)
Theorem removeEntry_by_creation_time (now t : Z) (f : form)
    (entries : list entry) :
  In (newEntry t f) (removeEntry true (decimal now) entries) <->
  In (newEntry t f) entries /\ t <> now.
Proof.
  unfold removeEntry. cbn [negb]. rewrite filter_In.
  change (id (newEntry t f)) with (decimal t). unfold string_eqb.
  destruct (decide (decimal t = decimal now)) as [E|Hne];
    cbv beta iota delta [negb].
  - apply decimal_inj in E. split; [intros [_ H]; discriminate|].
    intros [_ H]. contradiction.
  - split; intros [H _]; (split; [exact H|]); [|reflexivity].
    intros ->. now apply Hne.
Qed.

(** X5: [removeEntry] undoes [addEntry] when no older entry has the
    identifier of the new one; when the dialog is cancelled it changes
    nothing. *)
Theorem removeEntry_undoes_addEntry (now : Z) (f : form)
    (entries : list entry) :
  List.Forall (fun r => id r <> decimal now) entries ->
  removeEntry true (id (newEntry now f)) (fst (addEntry now f entries))
  = entries /\
  removeEntry false (id (newEntry now f)) (fst (addEntry now f entries))
  = newEntry now f :: entries.
Proof.
  intros Hfresh. split; [|reflexivity].
  unfold removeEntry, addEntry. cbn [negb fst List.filter newEntry id].
  unfold string_eqb at 1.
  destruct (decide (decimal now = decimal now)); [|congruence].
  cbv beta iota delta [negb].
  apply forallb_filter_id, forallb_forall. intros r Hr.
  rewrite List.Forall_forall in Hfresh. specialize (Hfresh r Hr).
  unfold string_eqb. now destruct (decide (id r = decimal now)).
Qed.

Lemma removeEntry_undoes_addEntry_witness :
  removeEntry true (id (newEntry 1715342400000 FormSpec.blank))
    (fst (addEntry 1715342400000 FormSpec.blank
            [newEntry 1715256000000 FormSpec.blank]))
  = [newEntry 1715256000000 FormSpec.blank].
Proof.
  apply (removeEntry_undoes_addEntry 1715342400000 FormSpec.blank
           [newEntry 1715256000000 FormSpec.blank]).
  repeat constructor. intros E. apply decimal_inj in E. discriminate.
Defined.

End EntriesFacts.

(** ** Dates written by the program and read back by it *)
Module RangeFacts.
Import Num Date Form Entries Report.

Lemma digit_value_decimal (d : Z) :
  0 <= d <= 9 -> digit_value 10 (48 + d) = Some d.
Proof.
  intros H. unfold digit_value.
  destruct (Z.leb_spec 48 (48 + d)); [|lia].
  destruct (Z.leb_spec (48 + d) 57); [|lia]. cbn [andb].
  replace (48 + d - 48) with d by lia.
  destruct (Z.ltb_spec d 10); [reflexivity|lia].
Qed.

Lemma digits_value_fixed_4 (y : Z) :
  0 <= y < 10000 -> digits_value 10 0 (fixed_digits 4 y) = Some y.
Proof.
  intros H. cbn [fixed_digits app digits_value].
  rewrite !digit_value_decimal by euclid. f_equal. euclid.
Qed.

Lemma digits_value_fixed_2 (n : Z) :
  0 <= n < 100 -> digits_value 10 0 (fixed_digits 2 n) = Some n.
Proof.
  intros H. cbn [fixed_digits app digits_value].
  rewrite !digit_value_decimal by euclid. f_equal. euclid.
Qed.

(** The day of the month is a day of that month. *)
Lemma DateFromTime_le_month (t : Z) :
  DateFromTime t <= DaysInMonth (YearFromTime t) (MonthFromTime t).
Proof.
  unfold DaysInMonth. cbv zeta. fold (InLeapYear t).
  unfold DateFromTime, MonthFromTime. cbv zeta.
  pose proof (DateFacts.DayWithinYear_range t) as Hd.
  destruct (DateFacts.InLeapYear_days t) as [[-> Hy]|[-> Hy]]; rewrite Hy in Hd;
    repeat match goal with
           | |- context [if ?a <? ?b then _ else _] =>
               destruct (Z.ltb_spec a b)
           end;
    cbn [month_start];
    match goal with
    | |- context [month_start ?l (?m + 1)] =>
        let v := eval vm_compute in (month_start l (m + 1)) in
        change (month_start l (m + 1)) with v
    end; lia.
Qed.

(** The date-only text of a time value is read back as the midnight,
    in UTC, of the day of the time value. *)
Lemma parse_date_key (t : Z) :
  0 <= YearFromTime t <= 9999 ->
  parse_date (Habits.date_key t) = Some (Day t * msPerDay).
Proof.
  intros Hy. rewrite (HabitFacts.date_key_parts t Hy).
  pose proof (DateFacts.MonthFromTime_range t) as Hm.
  pose proof (DateFacts.DateFromTime_range t) as Hd.
  pose proof (DateFromTime_le_month t) as Hdm.
  change (parse_date _) with
    (match digits_value 10 0 (fixed_digits 4 (YearFromTime t)),
           digits_value 10 0 (fixed_digits 2 (MonthFromTime t + 1)),
           digits_value 10 0 (fixed_digits 2 (DateFromTime t)) with
     | Some y, Some m, Some d =>
         if (45 =? 45) && (45 =? 45)
            && (1 <=? m) && (m <=? 12) && (1 <=? d)
            && (d <=? DaysInMonth y (m - 1))
         then Some (MakeDate (MakeDay y (m - 1) d) 0)
         else None
     | _, _, _ => None
     end).
  rewrite digits_value_fixed_4, !digits_value_fixed_2 by lia.
  replace (MonthFromTime t + 1 - 1) with (MonthFromTime t) by lia.
  destruct (Z.leb_spec 1 (MonthFromTime t + 1)); [|lia].
  destruct (Z.leb_spec (MonthFromTime t + 1) 12); [|lia].
  destruct (Z.leb_spec 1 (DateFromTime t)); [|lia].
  destruct (Z.leb_spec (DateFromTime t)
              (DaysInMonth (YearFromTime t) (MonthFromTime t))); [|lia].
  cbn [Z.eqb Pos.eqb andb]. rewrite DateFacts.MakeDay_of_time.
  unfold MakeDate. f_equal. lia.
Qed.

Lemma date_key_nonempty (t : Z) :
  0 <= YearFromTime t <= 9999 -> nonempty (Habits.date_key t) = true.
Proof. intros Hy. now rewrite (HabitFacts.date_key_parts t Hy). Qed.

(** X6: the date that [getEmptyForm] puts in the form, once stored by
    [addEntry], is read back by [new Date] as the midnight, in UTC, of
    the day on which the form was made, whatever the time of day. *)
Theorem default_date_parses (now0 now1 : Z) :
  0 <= YearFromTime now0 <= 9999 ->
  parse_date (date (newEntry now1 (getEmptyForm now0)))
  = Some (now0 - TimeWithinDay now0).
Proof.
  intros Hy. cbn [newEntry getEmptyForm date f_date].
  fold (Habits.date_key now0). rewrite (parse_date_key now0 Hy). f_equal.
  unfold Day, TimeWithinDay, msPerDay. euclid.
Qed.

Lemma default_date_parses_witness :
  parse_date (date (newEntry 1715342400000 (getEmptyForm 1715342400000)))
  = Some (1715342400000 - TimeWithinDay 1715342400000).
Proof.
  apply (default_date_parses 1715342400000 1715342400000).
  vm_compute. split; discriminate.
Defined.

(** X7: in a zone whose offset never changes, the weekly report made
    at [now] selects an entry that carries the default date of a form
    made at [now0] exactly when [now0] falls on the UTC day of [now]
    or on one of the five days before it, or on the sixth day before
    it when [now] is a midnight in UTC. *)
Theorem default_date_in_weekly_report (off now0 now1 now : Z)
    (entries : list entry) :
  0 <= YearFromTime now0 <= 9999 ->
  In (newEntry now1 (getEmptyForm now0)) entries ->
  (In (newEntry now1 (getEmptyForm now0))
      (selected (fixed_zone off) now (js "weekly") entries) <->
   Day now - 6 < Day now0 <= Day now \/
   (Day now0 = Day now - 6 /\ TimeWithinDay now = 0)).
Proof.
  intros Hy Hin. unfold selected. rewrite filter_In.
  assert (parse_date (date (newEntry now1 (getEmptyForm now0)))
          = Some (Day now0 * msPerDay)) as E
      by (cbn [newEntry getEmptyForm date f_date];
          apply (parse_date_key now0 Hy)).
  rewrite (ReportFacts.weekly_window_days off now _ _ E).
  replace (Day (Day now0 * msPerDay)) with (Day now0)
    by (unfold Day, msPerDay; euclid).
  tauto.
Qed.

Lemma default_date_in_weekly_report_witness :
  In (newEntry 1714900000000 (getEmptyForm 1714900000000))
     (selected (fixed_zone 0) 1715342400000 (js "weekly")
        [newEntry 1714900000000 (getEmptyForm 1714900000000)]) <->
  Day 1715342400000 - 6 < Day 1714900000000 <= Day 1715342400000 \/
  (Day 1714900000000 = Day 1715342400000 - 6 /\
   TimeWithinDay 1715342400000 = 0).
Proof.
  apply (default_date_in_weekly_report 0 1714900000000 1714900000000
           1715342400000 [newEntry 1714900000000 (getEmptyForm 1714900000000)]).
  - vm_compute. split; discriminate.
  - left. reflexivity.
Defined.

Section FilterBar.

Variable toLowerCase : jsstring -> jsstring.

Lemma keep_dates_only (f : filters) (e : entry) :
  query f = [] -> filterTag f = [] ->
  keep toLowerCase f e =
  negb (nonempty (from f) && date_lt (date e) (from f))
  && negb (nonempty (to f) && date_lt (to f) (date e)).
Proof.
  intros Hq Ht. unfold keep. rewrite Hq, Ht. cbn [nonempty andb].
  destruct (nonempty (from f) && date_lt (date e) (from f)); [reflexivity|].
  now destruct (nonempty (to f) && date_lt (to f) (date e)).
Qed.

(** X8: with no query and no tag, a range from the day of [a] to the
    day of [b] keeps an entry dated on the day of [t] exactly when
    that day is from the first to the last day of the range, both
    included. *)
Theorem filtered_date_range (f : filters) (a b t : Z) (e : entry)
    (entries : list entry) :
  query f = [] -> filterTag f = [] ->
  0 <= YearFromTime a <= 9999 -> from f = Habits.date_key a ->
  0 <= YearFromTime b <= 9999 -> to f = Habits.date_key b ->
  0 <= YearFromTime t <= 9999 -> date e = Habits.date_key t ->
  (In e (filtered toLowerCase f entries) <->
   In e entries /\ Day a <= Day t <= Day b).
Proof.
  intros Hq Htag Ha Hfrom Hb Hto Ht Hdate.
  unfold filtered. rewrite filter_In, keep_dates_only by assumption.
  rewrite Hfrom, Hto, Hdate, !date_key_nonempty by assumption.
  unfold date_lt. rewrite !parse_date_key by assumption. cbn [andb].
  unfold msPerDay.
  destruct (Z.ltb_spec (Day t * 86400000) (Day a * 86400000));
    destruct (Z.ltb_spec (Day b * 86400000) (Day t * 86400000));
    cbn [negb andb]; split; intros [H1 H2]; (split; [exact H1|]);
    try discriminate; try reflexivity; lia.
Qed.

(** X9: with no query and no tag, an empty range keeps every entry,
    and no range drops an entry whose date is empty. *)
Theorem filtered_lenient (f : filters) (entries : list entry) :
  query f = [] -> filterTag f = [] ->
  (from f = [] -> to f = [] -> filtered toLowerCase f entries = entries) /\
  (forall e, In e entries -> date e = [] ->
             In e (filtered toLowerCase f entries)).
Proof.
  intros Hq Htag. split.
  - intros Hfrom Hto. unfold filtered. apply forallb_filter_id, forallb_forall.
    intros e _. rewrite keep_dates_only by assumption. now rewrite Hfrom, Hto.
  - intros e Hin Hempty. unfold filtered. rewrite filter_In.
    assert (parse_date (date e) = None) as Hdate by now rewrite Hempty.
    split; [exact Hin|]. rewrite keep_dates_only by assumption.
    unfold date_lt. rewrite Hdate.
    destruct (parse_date (to f)); rewrite !andb_false_r; reflexivity.
Qed.

End FilterBar.

Lemma filtered_date_range_witness :
  In (ReportSpec.dated (js "2024-05-09"))
     (filtered (fun s => s)
        {| query := []; filterTag := []; from := js "2024-05-09";
           to := js "2024-05-10" |}
        [ReportSpec.dated (js "2024-05-09")]) <->
  In (ReportSpec.dated (js "2024-05-09")) [ReportSpec.dated (js "2024-05-09")]
  /\ Day 1715256000000 <= Day 1715256000000 <= Day 1715342400000.
Proof.
  apply (filtered_date_range (fun s => s)
           {| query := []; filterTag := []; from := js "2024-05-09";
              to := js "2024-05-10" |}
           1715256000000 1715342400000 1715256000000
           (ReportSpec.dated (js "2024-05-09"))
           [ReportSpec.dated (js "2024-05-09")]);
    try reflexivity; vm_compute; split; discriminate.
Defined.

Lemma filtered_lenient_witness :
  filtered (fun s => s) no_filters [ReportSpec.dated (js "soon")]
  = [ReportSpec.dated (js "soon")].
Proof.
  apply (filtered_lenient (fun s => s) no_filters
           [ReportSpec.dated (js "soon")]); reflexivity.
Defined.

End RangeFacts.

(** ** Advice, trend and tag counts *)
Module InsightFacts.
Import AnalyticsSpec InsightSpec.
Import Analytics Insight.
Local Open Scope Q_scope.

(** *** The thresholds of the advice *)

Lemma floor_lt (x : Q) (m : Z) : (Qfloor x < m)%Z <-> x < inject_Z m.
Proof.
  pose proof (Qfloor_le x) as Hlo. pose proof (Qlt_floor x) as Hhi. split.
  - intros H. assert (Qfloor x + 1 <= m)%Z as H' by lia.
    rewrite Zle_Qle in H'. lra.
  - intros H. rewrite Zlt_Qlt. lra.
Qed.

(** The rate that [toFixed(1)] prints is below a whole number [k]
    exactly when the rate itself is below [k - 0.05]. *)
Lemma rate_below (v : Q) (k : Z) :
  (0 < k < 10 ^ 21)%Z ->
  num_ltb (plus_toFixed 1 (Fin v)) (Fin (inject_Z k)) = true <->
  v < inject_Z k - (1 # 20).
Proof.
  intros [Hk0 Hk1].
  assert (1 <= inject_Z k) as HK
      by (change 1 with (inject_Z 1); rewrite <- Zle_Qle; lia).
  rewrite Zlt_Qlt in Hk0, Hk1. change (inject_Z 0) with 0 in Hk0.
  set (K := inject_Z k) in *. set (B := inject_Z (10 ^ 21)) in *.
  cbn [plus_toFixed]. fold B.
  destruct (Qle_bool B (Qabs v)) eqn:Hbig.
  - apply Qle_bool_iff in Hbig. cbn [num_ltb]. clearbody K B.
    destruct (Qlt_le_dec v K) as [Hlt|Hge].
    + split; [intros _|reflexivity].
      destruct (Qlt_le_dec v 0) as [Hneg|Hpos].
      * lra.
      * rewrite (Qabs_pos v Hpos) in Hbig. lra.
    + split; [discriminate|]. intros H. lra.
  - assert (~ B <= Qabs v) as Hsmall
        by (intros H; apply Qle_bool_iff in H; congruence).
    cbn [num_ltb]. unfold toFixed_value. cbv zeta.
    change (inject_Z (10 ^ Z.of_nat 1)) with 10.
    set (n := Qfloor (Qabs v * 10 + (1 # 2))).
    pose proof (Qfloor_le (Qabs v * 10 + (1 # 2))) as Hlo.
    pose proof (floor_lt (Qabs v * 10 + (1 # 2)) (10 * k)) as Hfl.
    pose proof (floor_lt (Qabs v * 10 + (1 # 2)) 0) as Hf0.
    fold n in Hlo, Hfl, Hf0. rewrite inject_Z_mult in Hfl. fold K in Hfl.
    change (inject_Z 10) with 10 in Hfl. change (inject_Z 0) with 0 in Hf0.
    rewrite Zlt_Qlt in Hfl, Hf0. rewrite inject_Z_mult in Hfl.
    fold K in Hfl. change (inject_Z 10) with 10 in Hfl.
    change (inject_Z 0) with 0 in Hf0.
    pose proof (Qabs_nonneg v) as Habs.
    clearbody n K B. unfold Qneg.
    destruct (Qlt_le_dec v 0) as [Hneg|Hpos].
    + assert ((- inject_Z n / 10) * 10 == - inject_Z n) as HV by field.
      set (V := - inject_Z n / 10) in *.
      destruct (Qlt_le_dec (Qred V) K) as [Hlt|Hge].
      * split; [intros _|reflexivity]. lra.
      * rewrite Qred_correct in Hge. split; [discriminate|]. intros _.
        exfalso. assert (~ inject_Z n < 0) by (intros H; apply Hf0 in H; lra).
        clearbody V. lra.
    + rewrite (Qabs_pos v Hpos) in *.
      assert ((inject_Z n / 10) * 10 == inject_Z n) as HV by field.
      set (V := inject_Z n / 10) in *.
      destruct (Qlt_le_dec (Qred V) K) as [Hlt|Hge].
      * rewrite Qred_correct in Hlt. split; [intros _|reflexivity].
        clearbody V.
        assert (inject_Z n < 10 * K) as H by lra. apply Hfl in H. lra.
      * rewrite Qred_correct in Hge. split; [discriminate|]. intros H.
        clearbody V.
        assert (v * 10 + (1 # 2) < 10 * K) as H' by lra.
        apply Hfl in H'. lra.
Qed.



(** The focus test on one entry: minutes that are missing count as 0. *)
Lemma focus_short (x : number) :
  num_ltb (num_or x zero) (Fin 20) = true <->
  match x with
  | NaN => True
  | Inf negative => negative = true
  | Fin q => q < 20
  end.
Proof.
  destruct x as [|b|q]; unfold num_or, zero; cbn [truthy].
  - split; [tauto|reflexivity].
  - cbn [num_ltb]. tauto.
  - destruct (Qeq_bool q 0) eqn:E; cbn [negb num_ltb].
    + apply Qeq_bool_iff in E. split; [intros _; lra|reflexivity].
    + destruct (Qlt_le_dec q 20); split; try tauto; try discriminate.
      intros H. lra.
Qed.

(** X11: a report over no entry gives no advice; a report gives at
    most two pieces of advice; and the advice of a focused block is
    given exactly when some selected entry has fewer than 20 focused
    minutes, a missing number counting as 0. *)
Theorem recommendations_shape (selected : list entry) :
  (selected = [] -> recommendations selected = []) /\
  (length (recommendations selected) <= 2)%nat /\
  (In FocusBlock (recommendations selected) <->
   exists s, In s selected /\
     match minutesFocused s with
     | NaN => True
     | Inf negative => negative = true
     | Fin q => q < 20
     end).
Proof.
  split; [intros ->; reflexivity|].
  unfold recommendations, rate_advice, focus_advice.
  assert (forall l : list recommendation,
            In FocusBlock
              (match sr selected with
               | Some r =>
                   if num_ltb r (Fin 50) then [ReducePlanned]
                   else if num_ltb r (Fin 80) then [RemoveDistraction]
                   else [RaiseTarget]
               | None => []
               end ++ l) <-> In FocusBlock l) as Hrate.
  { intros l. rewrite in_app_iff. split; [|tauto]. intros [H|H]; [|exact H].
    destruct (sr selected) as [r|]; [|destruct H].
    destruct (num_ltb r (Fin 50)); [destruct H as [H|[]]; discriminate|].
    destruct (num_ltb r (Fin 80)); destruct H as [H|[]]; discriminate. }
  split.
  - rewrite length_app.
    destruct (sr selected) as [r|];
      [destruct (num_ltb r (Fin 50)); [|destruct (num_ltb r (Fin 80))]|];
      destruct (existsb _ selected); cbn; lia.
  - rewrite Hrate.
    destruct (existsb _ selected) eqn:Ex.
    + apply existsb_exists in Ex. destruct Ex as (s & Hs & Hlt).
      apply focus_short in Hlt. split; [intros _; now exists s|].
      intros _. now left.
    + split; [intros []|]. intros (s & Hs & Hlt). exfalso.
      apply focus_short in Hlt.
      assert (existsb
                (fun s => num_ltb (num_or (minutesFocused s) zero) (Fin 20))
                selected = true) as Ex'
          by (apply existsb_exists; now exists s).
      congruence.
Qed.

(** X12: the advice panel of the local variant and the advice on the
    rate of the report agree on every list of entries whose rate is a
    number; when the rate is [NaN] the local variant shows no panel
    and the report advises to raise a target. *)
Theorem advice_variants (entries : list entry) :
  (successRate entries <> Some NaN ->
   map (fun p => match p with
                 | Below50 => ReducePlanned
                 | Fair => RemoveDistraction
                 | Great => RaiseTarget
                 end) (panels (successRate entries))
   = rate_advice entries) /\
  (successRate entries = Some NaN ->
   panels (successRate entries) = [] /\
   rate_advice entries = [RaiseTarget]).
Proof.
  unfold rate_advice. change (sr entries) with (successRate entries).
  destruct (successRate entries) as [[|b|q]|].
  - split; [congruence|]. intros _. split; reflexivity.
  - split; [intros _|discriminate]. now destruct b.
  - split; [intros _|discriminate]. unfold panels, num_geb, num_ltb.
    destruct (Qlt_le_dec q 50), (Qlt_le_dec q 80); cbn; try reflexivity.
    exfalso. lra.
  - split; [intros _; reflexivity|discriminate].
Qed.

(** The rate is [NaN] for an entry whose two counts are infinite, which
    [addEntry] builds from the input Infinity. *)
Example rate_nan :
  successRate
    [ {| id := []; date := []; plannedTasks := Inf false;
         completedTasks := Inf false; tasksNotes := []; wins := [];
         challenges := []; mood := Fin 3; tags := [];
         minutesFocused := Fin 0; createdAt := [] |} ]
  = Some NaN.
Proof. reflexivity. Qed.

(** *** The trend *)

(** X13: the trend series of both variants is the series of the 30
    entries at the head of the list, the most recent ones, in the
    opposite order; the [slice(0, 60)] of App2.jsx adds nothing. *)
Theorem trend_recent_30 (entries : list entry) :
  trend entries
  = map (fun r => (date r, completedTasks r)) (rev (firstn 30 entries)) /\
  trend_local entries = trend entries /\
  (length (trend entries) <= 30)%nat.
Proof.
  assert (trend entries
          = map (fun r => (date r, completedTasks r))
                (rev (firstn 30 entries))) as E.
  { unfold trend, last_n.
    change 60%nat with (30 + 30)%nat.
    rewrite <- (take_take_drop entries 30 30), rev_app_distr, map_app.
    rewrite length_app, !length_map, !length_rev.
    destruct (Nat.eq_dec (length (firstn 30 entries)) 30%nat) as [E30|Hne].
    - rewrite E30, Nat.add_sub.
      rewrite <- (length_rev (firstn 30 (skipn 30 entries))).
      rewrite <- (length_map (fun r => (date r, completedTasks r))
                    (rev (firstn 30 (skipn 30 entries)))).
      apply drop_app_length.
    - pose proof (firstn_le_length 30 entries) as Hle.
      assert (length entries < 30)%nat as Hshort.
      { rewrite length_firstn in Hne. lia. }
      rewrite (skipn_all2 entries) by lia. rewrite firstn_nil.
      cbn [rev map app length].
      replace (0 + length (firstn 30 entries) - 30)%nat with 0%nat by lia.
      reflexivity. }
  split; [exact E|]. split.
  - rewrite E. unfold trend_local, last_n.
    rewrite length_map, length_rev.
    pose proof (firstn_le_length 30 entries) as Hle.
    replace (length (firstn 30 entries) - 30)%nat with 0%nat by lia.
    reflexivity.
  - rewrite E, length_map, length_rev. apply firstn_le_length.
Qed.

(** *** The averages *)

Lemma days_pos (entries : list entry) :
  entries <> [] -> 0 < inject_Z (Z.of_nat (length entries)).
Proof.
  intros H. change 0 with (inject_Z 0). rewrite <- Zlt_Qlt.
  destruct entries; [congruence|cbn [length]; lia].
Qed.

(** The mean of a field over a list that is not empty, as printed with
    two decimals. *)
Lemma mean_rounded (field : entry -> number) (entries : list entry) :
  Forall (fun r => not_infinite (field r)) entries ->
  entries <> [] ->
  Qabs (Qsum field entries / inject_Z (Z.of_nat (length entries)))
    < inject_Z (10 ^ 21) ->
  exists r : Q,
    plus_toFixed 2 (num_div (total field entries) (days entries)) = Fin r /\
    (exists k : Z, r == k # 100) /\
    Qabs (r - Qsum field entries / inject_Z (Z.of_nat (length entries)))
      <= 1 # 200.
Proof.
  intros Hfin Hne Hsmall.
  destruct (AnalyticsFacts.total_fin field entries Hfin) as (t & Ht & Et).
  pose proof (days_pos entries Hne) as Hn.
  unfold days. rewrite Ht. set (n := inject_Z (Z.of_nat (length entries))) in *.
  cbn [num_div].
  destruct (Qeq_bool n 0) eqn:E; [apply Qeq_bool_iff in E; lra|].
  set (v := Qred (t / n)).
  assert (Hv : v == Qsum field entries / n)
    by (unfold v; now rewrite Qred_correct, Et).
  cbn [plus_toFixed].
  destruct (Qle_bool (inject_Z (10 ^ 21)) (Qabs v)) eqn:Hbig.
  { apply Qle_bool_iff in Hbig. rewrite Hv in Hbig. lra. }
  exists (toFixed_value 2 v). split; [reflexivity|]. split.
  - destruct (AnalyticsFacts.toFixed_value_grid 2 v) as (k & Hk). exists k.
    rewrite Hk. change (10 ^ Z.of_nat 2)%Z with 100%Z.
    now rewrite (Qmake_Qdiv k 100).
  - pose proof (AnalyticsFacts.toFixed_value_near 2 v) as Hnear.
    change (inject_Z (10 ^ Z.of_nat 2)) with 100 in Hnear.
    rewrite <- Hv. lra.
Qed.



Local Close Scope Q_scope.

(** *** The tag counts *)

Lemma occurrences_nonneg (t : jsstring) (l : list jsstring) :
  0 <= occurrences t l.
Proof. unfold occurrences. lia. Qed.

Lemma occurrences_cons (t u : jsstring) (l : list jsstring) :
  occurrences t (u :: l) =
  (if decide (t = u) then 1 else 0) + occurrences t l.
Proof.
  unfold occurrences, string_eqb. cbn [List.filter].
  destruct (decide (t = u)); cbn [length]; lia.
Qed.

Lemma count_tags (l : list jsstring) :
  List.Forall (fun t => existsb (string_eqb t) inherited_names = false) l ->
  forall m0 : gmap jsstring Z,
    (forall t v, m0 !! t = Some v -> 0 < v) ->
    exists m,
      fold_left count_tag l (Some m0) = Some m /\
      forall t,
        m !! t =
        (if 0 <? default 0 (m0 !! t) + occurrences t l
         then Some (default 0 (m0 !! t) + occurrences t l) else None).
Proof.
  induction 1 as [|u l Hu _ IH]; intros m0 Hpos.
  - exists m0. split; [reflexivity|]. intros t.
    change (occurrences t []) with 0. rewrite Z.add_0_r.
    destruct (m0 !! t) as [v|] eqn:E; cbv [default from_option Datatypes.id];
      [|reflexivity].
    specialize (Hpos t v E). destruct (Z.ltb_spec 0 v); [reflexivity|lia].
  - cbn [fold_left count_tag]. rewrite Hu.
    assert (0 <= default 0 (m0 !! u)) as Hu0.
    { destruct (m0 !! u) as [v|] eqn:E; cbv [default from_option Datatypes.id];
        [|lia].
      specialize (Hpos u v E). lia. }
    destruct (IH (<[u := default 0 (m0 !! u) + 1]> m0)) as (m & Hm & Hlook).
    { intros t v. rewrite lookup_insert.
      destruct (decide (u = t)); [intros [= <-]; lia|apply Hpos]. }
    exists m. split; [exact Hm|]. intros t. rewrite Hlook, lookup_insert.
    rewrite occurrences_cons.
    destruct (decide (u = t)) as [->|Hne].
    + destruct (decide (t = t)); [|congruence].
      cbv [default from_option Datatypes.id].
      now rewrite Z.add_assoc.
    + destruct (decide (t = u)); [congruence|]. reflexivity.
Qed.

(** X15: when no tag is the name of a property that every object
    inherits, the tag counts hold, for each tag that occurs in some
    entry, the number of its occurrences over all entries, and nothing
    for any other text. *)
Theorem tagCounts_occurrences (entries : list entry) :
  List.Forall (fun t => existsb (string_eqb t) inherited_names = false)
    (flat_map tags entries) ->
  exists m,
    tagCounts entries = Some m /\
    forall t,
      m !! t =
      (if 0 <? occurrences t (flat_map tags entries)
       then Some (occurrences t (flat_map tags entries)) else None).
Proof.
  intros Hsafe. unfold tagCounts.
  destruct (count_tags (flat_map tags entries) Hsafe ∅) as (m & Hm & Hlook).
  { intros t v. rewrite lookup_empty. discriminate. }
  exists m. split; [exact Hm|]. intros t. rewrite Hlook, lookup_empty.
  reflexivity.
Qed.

Lemma tagCounts_occurrences_witness :
  exists m,
    tagCounts tagged = Some m /\
    forall t,
      m !! t =
      (if 0 <? occurrences t (flat_map tags tagged)
       then Some (occurrences t (flat_map tags tagged)) else None).
Proof.
  apply (tagCounts_occurrences tagged). repeat constructor.
Defined.

End InsightFacts.

(** ** Habits: marking and the names *)
Module HabitMoreFacts.
Import Date Habits.

Lemma existsb_string_eqb (d : jsstring) (l : list jsstring) :
  existsb (string_eqb d) l = true <-> In d l.
Proof.
  rewrite existsb_exists. unfold string_eqb. split.
  - intros (x & Hx & E). destruct (decide (d = x)); [now subst|discriminate].
  - intros H. exists d. split; [exact H|]. now destruct (decide (d = d)).
Qed.

(** What one call of the callback of [markHabitLocal] does to a
    habit. *)
Lemma mark_one_cases (fuel : nat) (tz : TimeZone) (now : Z)
    (habitId : jsstring) (hb hb' : habit) :
  mark_one fuel tz now habitId hb = Some hb' ->
  hb' = hb /\ (id hb <> habitId \/ In (date_key now) (history hb)) \/
  id hb = habitId /\ ~ In (date_key now) (history hb) /\
  id hb' = id hb /\ name hb' = name hb /\
  history hb' = history hb ++ [date_key now] /\
  last_completed hb' = Some (date_key now) /\
  calculateStreak fuel tz now (history hb') = Some (streak hb').
Proof.
  unfold mark_one, string_eqb. intros E.
  destruct (decide (id hb = habitId)) as [Hid|Hid]; cbv beta iota delta [negb] in E.
  - destruct (existsb _ (history hb)) eqn:Ex.
    + injection E as <-. left. split; [reflexivity|]. right.
      now apply existsb_string_eqb.
    + destruct (calculateStreak _ _ _ _) as [k|] eqn:Ek; [|discriminate].
      injection E as <-. right. cbn. repeat split; try assumption.
      intros Hin. apply existsb_string_eqb in Hin.
      unfold string_eqb in Hin. congruence.
  - injection E as <-. left. split; [reflexivity|]. now left.
Qed.

(** X16: [markHabitLocal] changes only the habits that carry the given
    identifier: the list keeps its length and its order, every habit
    keeps its identifier and its name, a habit with another identifier
    is left as it is, and a history is left as it is or gets the date
    of the day at its end. *)
Theorem markHabitLocal_frame (fuel : nat) (tz : TimeZone) (now : Z)
    (habitId : jsstring) (h h' : list habit) :
  markHabitLocal fuel tz now habitId h = Some h' ->
  Forall2
    (fun hb hb' =>
       id hb' = id hb /\ name hb' = name hb /\
       (id hb <> habitId -> hb' = hb) /\
       (history hb' = history hb \/
        history hb' = history hb ++ [date_key now]))
    h h'.
Proof.
  intros Hmark. apply mapM_Some_1 in Hmark.
  induction Hmark as [|hb hb' h h' Hone _ IH]; constructor; [|exact IH].
  destruct (mark_one_cases _ _ _ _ _ _ Hone)
    as [[-> _]|(Hid & _ & Hid' & Hname & Hhist & _)].
  - repeat split; auto.
  - repeat split; auto. intros Hne. contradiction.
Qed.

Lemma markHabitLocal_frame_witness :
  Forall2
    (fun hb hb' =>
       id hb' = id hb /\ name hb' = name hb /\
       (id hb <> js "1715256000000" -> hb' = hb) /\
       (history hb' = history hb \/
        history hb' = history hb ++ [date_key HabitSpec.noon_9_may]))
    (addHabitLocal HabitSpec.noon_9_may (js "read") [])
    HabitSpec.marked_once.
Proof.
  apply (markHabitLocal_frame 10 HabitSpec.utc HabitSpec.noon_9_may
           (js "1715256000000")
           (addHabitLocal HabitSpec.noon_9_may (js "read") [])
           HabitSpec.marked_once).
  vm_compute. reflexivity.
Defined.

(** X17: marking a habit a second time on the same UTC day changes
    nothing, whatever the time of day and the time zone. *)
Theorem markHabitLocal_same_day (fuel fuel' : nat) (tz : TimeZone)
    (now now' : Z) (habitId : jsstring) (h h' : list habit) :
  markHabitLocal fuel tz now habitId h = Some h' ->
  date_key now' = date_key now ->
  markHabitLocal fuel' tz now' habitId h' = Some h'.
Proof.
  intros Hmark Hday. apply mapM_Some_1 in Hmark. apply mapM_Some_2.
  induction Hmark as [|hb hb' h h' Hone _ IH]; constructor; [|exact IH].
  unfold mark_one, string_eqb. rewrite Hday.
  destruct (mark_one_cases _ _ _ _ _ _ Hone)
    as [[-> [Hid|Hin]]|(Hid & _ & Hid' & _ & Hhist & _)].
  - now destruct (decide (id hb = habitId)).
  - destruct (decide (id hb = habitId)); [|reflexivity].
    cbv beta iota delta [negb].
    apply existsb_string_eqb in Hin. unfold string_eqb in Hin. now rewrite Hin.
  - destruct (decide (id hb' = habitId)); [|reflexivity].
    cbv beta iota delta [negb].
    assert (In (date_key now) (history hb')) as Hin
        by (rewrite Hhist; apply in_or_app; right; now left).
    apply existsb_string_eqb in Hin. unfold string_eqb in Hin. now rewrite Hin.
Qed.

Lemma markHabitLocal_same_day_witness :
  markHabitLocal 10 HabitSpec.utc (HabitSpec.noon_9_may + 3600000)
    (js "1715256000000") HabitSpec.marked_once
  = Some HabitSpec.marked_once.
Proof.
  apply (markHabitLocal_same_day 10 10 HabitSpec.utc HabitSpec.noon_9_may
           (HabitSpec.noon_9_may + 3600000) (js "1715256000000")
           (addHabitLocal HabitSpec.noon_9_may (js "read") [])
           HabitSpec.marked_once).
  - vm_compute. reflexivity.
  - vm_compute. reflexivity.
Defined.

Lemma NoDup_snoc_fresh (d : jsstring) (l : list jsstring) :
  List.NoDup l -> ~ In d l -> List.NoDup (l ++ [d]).
Proof.
  induction 1 as [|x l Hx _ IH]; intros Hd.
  - constructor; [intros []|constructor].
  - cbn [app]. constructor.
    + rewrite in_app_iff. intros [H|[H|[]]]; [contradiction|].
      apply Hd. now left.
    + apply IH. intros H. apply Hd. now right.
Qed.

(** X18: in every state that adding and marking reach, no history
    holds a date twice, and the date of the last completion is the
    last date of the history (there is none exactly when the history
    is empty). *)
Theorem history_invariant (tz : TimeZone) (h : list habit) :
  reachable tz h ->
  List.Forall
    (fun hb => List.NoDup (history hb) /\
               last_completed hb = last (history hb))
    h.
Proof.
  unfold reachable. intros H.
  apply (rtc_ind_r (R := step tz)
           (fun h => List.Forall
                       (fun hb => List.NoDup (history hb) /\
                                  last_completed hb = last (history hb)) h)
           []); [constructor| |exact H].
  clear h H. intros h1 h2 _ Hstep IH.
  destruct Hstep as [now name h|fuel now habitId h h' Hmark].
  - apply Forall_app. split; [assumption|].
    constructor; [|constructor]. cbn. split; [constructor|reflexivity].
  - apply mapM_Some_1 in Hmark.
    induction Hmark as [|hb hb' h h' Hone _ IHm]; [constructor|].
    apply Forall_cons in IH as [[Hnd Hlast] Hh].
    constructor; [|auto].
    destruct (mark_one_cases _ _ _ _ _ _ Hone)
      as [[-> _]|(_ & Hnew & _ & _ & Hhist & Hlc & _)]; [now split|].
    rewrite Hhist, Hlc, last_snoc. split; [|reflexivity].
    now apply NoDup_snoc_fresh.
Qed.

Lemma history_invariant_witness :
  List.Forall
    (fun hb => List.NoDup (history hb) /\
               last_completed hb = last (history hb))
    HabitSpec.marked_once.
Proof.
  apply (history_invariant HabitSpec.utc HabitSpec.marked_once).
  unfold reachable.
  apply (rtc_l _ _ (addHabitLocal HabitSpec.noon_9_may (js "read") []));
    [apply step_add|].
  apply (rtc_l _ _ HabitSpec.marked_once); [|apply rtc_refl].
  apply (step_mark HabitSpec.utc 10 HabitSpec.noon_9_may (js "1715256000000")).
  vm_compute. reflexivity.
Defined.

(** *** The streak *)

Lemma streak_loop_ge (tz : TimeZone) (days : gset (list Z)) (fuel : nat) :
  forall (acc : nat) (cursor : Z) (k : nat),
    streak_loop fuel tz days acc cursor = Some k -> (acc <= k)%nat.
Proof.
  induction fuel as [|fuel IH]; intros acc cursor k; cbn [streak_loop];
    [discriminate|].
  destruct (decide (date_key cursor ∈ days)).
  - intros H. apply IH in H. lia.
  - intros [= <-]. lia.
Qed.

(** X19: whatever the time zone, the streak is 0 exactly when the date
    of the current UTC day is not in the history: without it the loop
    ends at once with 0, and with it every run that ends gives 1 or
    more. *)
Theorem calculateStreak_zero_iff (tz : TimeZone) (now : Z)
    (history : list jsstring) :
  (~ In (date_key now) history ->
   forall fuel, calculateStreak (S fuel) tz now history = Some 0%nat) /\
  (In (date_key now) history ->
   forall fuel k,
     calculateStreak fuel tz now history = Some k -> (1 <= k)%nat).
Proof.
  split.
  - intros Hout fuel. unfold calculateStreak. cbn [streak_loop].
    destruct (decide _) as [Hin|]; [|reflexivity].
    apply HabitFacts.in_days in Hin. contradiction.
  - intros Hin fuel k. unfold calculateStreak.
    destruct fuel as [|fuel]; cbn [streak_loop]; [discriminate|].
    destruct (decide _) as [|Hout].
    + intros H. now apply streak_loop_ge in H.
    + exfalso. apply Hout. now apply HabitFacts.in_days.
Qed.

(** X20: the streak depends on the history as a set of dates only:
    the order of the dates and their repetition do not matter. *)
Theorem calculateStreak_set (fuel : nat) (tz : TimeZone) (now : Z)
    (history1 history2 : list jsstring) :
  (forall d, In d history1 <-> In d history2) ->
  calculateStreak fuel tz now history1 = calculateStreak fuel tz now history2.
Proof.
  intros H. unfold calculateStreak. f_equal.
  apply set_eq. intros d. rewrite !HabitFacts.in_days. apply H.
Qed.

Lemma calculateStreak_set_witness :
  calculateStreak 10 HabitSpec.utc HabitSpec.noon_9_may
    [js "2024-05-09"; js "2024-05-08"]
  = calculateStreak 10 HabitSpec.utc HabitSpec.noon_9_may
      [js "2024-05-08"; js "2024-05-09"; js "2024-05-08"].
Proof.
  apply (calculateStreak_set 10 HabitSpec.utc HabitSpec.noon_9_may
           [js "2024-05-09"; js "2024-05-08"]
           [js "2024-05-08"; js "2024-05-09"; js "2024-05-08"]).
  intros d. cbn [In]. tauto.
Defined.

(** *** The names *)

Lemma mark_one_name (fuel : nat) (tz : TimeZone) (now : Z)
    (habitId : jsstring) (hb hb' : habit) :
  mark_one fuel tz now habitId hb = Some hb' -> name hb' = name hb.
Proof.
  intros Hone.
  destruct (mark_one_cases _ _ _ _ _ _ Hone)
    as [[-> _]|(_ & _ & _ & Hname & _)]; [reflexivity|exact Hname].
Qed.

Lemma trim_spaces (s : jsstring) :
  forallb Num.is_space s = true -> Num.trim s = [].
Proof.
  intros H. unfold Num.trim.
  assert (Num.trim_start s = []) as ->; [|reflexivity].
  induction s as [|c s IH]; [reflexivity|]. cbn [forallb] in H.
  apply andb_prop in H as [Hc Hs]. cbn [Num.trim_start]. rewrite Hc. auto.
Qed.

(** X21: in every state that the Add button and the Mark Done button
    reach, the name of each habit is non-empty and neither starts nor
    ends with white space; a name field that holds white space only
    adds no habit. *)
Theorem habit_names_trimmed (tz : TimeZone) (h : list habit) :
  HabitUI.reachable tz h ->
  List.Forall
    (fun hb =>
       name hb <> [] /\
       (forall c r, name hb = c :: r -> Num.is_space c = false) /\
       (forall r c, name hb = r ++ [c] -> Num.is_space c = false))
    h /\
  (forall now nm, forallb Num.is_space nm = true ->
                  HabitUI.add now nm h = (h, nm)).
Proof.
  intros H. split.
  2:{ intros now nm Hsp. unfold HabitUI.add.
      now rewrite (trim_spaces nm Hsp). }
  revert H. unfold HabitUI.reachable. intros H.
  apply (rtc_ind_r (R := HabitUI.step tz)
           (fun h => List.Forall
              (fun hb =>
                 name hb <> [] /\
                 (forall c r, name hb = c :: r -> Num.is_space c = false) /\
                 (forall r c, name hb = r ++ [c] -> Num.is_space c = false)) h)
           []); [constructor| |exact H].
  clear h H. intros h1 h2 _ Hstep IH.
  destruct Hstep as [now nm h|fuel now habitId h h' Hmark].
  - unfold HabitUI.add.
    destruct (Form.nonempty (Num.trim nm)) eqn:Hne; cbn [fst]; [|exact IH].
    apply Forall_app. split; [exact IH|].
    constructor; [|constructor]. cbn [new_habit name]. split; [|split].
    + intros E. rewrite E in Hne. discriminate.
    + intros c r E. now apply (EntriesFacts.trim_first nm c r).
    + intros r c E. now apply (EntriesFacts.trim_last nm r c).
  - apply mapM_Some_1 in Hmark.
    induction Hmark as [|hb hb' h h' Hone _ IHm]; [constructor|].
    apply Forall_cons in IH as [Hhb Hh].
    constructor; [|auto]. now rewrite (mark_one_name _ _ _ _ _ _ Hone).
Qed.

Lemma habit_names_trimmed_witness :
  List.Forall
    (fun hb =>
       name hb <> [] /\
       (forall c r, name hb = c :: r -> Num.is_space c = false) /\
       (forall r c, name hb = r ++ [c] -> Num.is_space c = false))
    (fst (HabitUI.add HabitSpec.noon_9_may (js " read ") [])).
Proof.
  apply (habit_names_trimmed HabitSpec.utc
           (fst (HabitUI.add HabitSpec.noon_9_may (js " read ") []))).
  unfold HabitUI.reachable.
  apply (rtc_l _ _ (fst (HabitUI.add HabitSpec.noon_9_may (js " read ") [])));
    [apply HabitUI.step_add|apply rtc_refl].
Defined.

End HabitMoreFacts.

(** ** The cloud backup *)
Module BackupFacts.
Import Codec CodecSpec Backup.

(** X22: [uploadBackup] hands a row to the backend only when the
    client is configured, a user is signed in and a key is derived;
    the row carries the identity of the user and the text that
    [encryptString] returned for the state, never the state itself;
    and the success alert is shown exactly when a row was handed over
    and the backend reported no error. *)
Theorem uploadBackup_row (A : AesGcm) (configured : bool)
    (user : option jsstring) (key : option (CryptoKey A)) (random : list Z)
    (stringify : list entry -> list Habits.habit -> jsstring -> jsstring)
    (now : Z) (upsert : jsstring -> jsstring -> option jsstring)
    (st : snapshot) :
  match fst (uploadBackup A configured user key random stringify now upsert st)
  with
  | Some (uid, payload) =>
      configured = true /\ user = Some uid /\
      (exists k,
         key = Some k /\
         encryptString A random k
           (stringify (snap_entries st) (snap_habits st)
              (Date.toISOString now)) = Ok payload) /\
      (snd (uploadBackup A configured user key random stringify now upsert st)
       = BackupUploaded <-> upsert uid payload = None)
  | None =>
      snd (uploadBackup A configured user key random stringify now upsert st)
      <> BackupUploaded
  end.
Proof.
  unfold uploadBackup. destruct configured; cbn [negb]; [|discriminate].
  destruct user as [uid|]; [|discriminate].
  destruct key as [k|]; [|discriminate]. cbv zeta.
  destruct (encryptString A random k _) as [payload|e] eqn:E; [|discriminate].
  destruct (upsert uid payload) as [message|] eqn:U; cbn [fst snd];
    (split; [reflexivity|]); (split; [reflexivity|]);
    (split; [now exists k|]); rewrite U; split; congruence.
Qed.

(** X23: [downloadBackup] restores all or nothing: unless it shows the
    alert of a restored backup it leaves the entries and the habits as
    they were, and it shows that alert only when the row was fetched,
    decrypted and parsed, in which case each of the two lists is
    replaced by the parsed one if the backup holds one. *)
Theorem downloadBackup_all_or_nothing (A : AesGcm) (configured : bool)
    (user : option jsstring) (key : option (CryptoKey A))
    (fetch : jsstring -> result jsstring jsstring)
    (parse : jsstring ->
             option (option (list entry) * option (list Habits.habit)))
    (st : snapshot) :
  (snd (downloadBackup A configured user key fetch parse st) <> BackupRestored ->
   fst (downloadBackup A configured user key fetch parse st) = st) /\
  (snd (downloadBackup A configured user key fetch parse st) = BackupRestored ->
   exists uid k payload text es hs,
     configured = true /\ user = Some uid /\ key = Some k /\
     fetch uid = Ok payload /\ decryptString A k payload = Ok text /\
     parse text = Some (es, hs) /\
     fst (downloadBackup A configured user key fetch parse st) =
     {| snap_entries := match es with Some l => l | None => snap_entries st end;
        snap_habits := match hs with Some l => l | None => snap_habits st end |}).
Proof.
  unfold downloadBackup. destruct configured; cbn [negb];
    [|split; [reflexivity|discriminate]].
  destruct user as [uid|]; [|split; [reflexivity|discriminate]].
  destruct key as [k|]; [|split; [reflexivity|discriminate]].
  destruct (fetch uid) as [payload|message] eqn:F;
    [|split; [reflexivity|discriminate]].
  destruct (decryptString A k payload) as [text|e] eqn:D;
    [|split; [reflexivity|discriminate]].
  destruct (parse text) as [[es hs]|] eqn:P;
    [|split; [reflexivity|discriminate]].
  cbn [fst snd]. split; [congruence|]. intros _.
  exists uid, k, payload, text, es, hs. repeat split; assumption.
Qed.

Section BackupRoundTrip.

Context (A : AesGcm) (laws : AesGcmLaws A).

(** What [encryptString] returns is read back by [decryptString] under
    the same key. *)
Lemma seal_open (random : list Z) (key : CryptoKey A) (text : jsstring) :
  length random = 12%nat -> wf_bytes random ->
  well_formed text -> no_bom text ->
  exists payload,
    encryptString A random key text = Ok payload /\
    decryptString A key payload = Ok text.
Proof using laws.
  intros Hlen Hiv Hwf Hbom.
  destruct (CodecFacts.encryptString_payload A laws random key text Hiv)
    as (payload & Henc & Hatob).
  exists payload. split; [exact Henc|].
  unfold decryptString. rewrite Hatob. cbv zeta.
  rewrite CodecFacts.Uint8Array_from_bytes.
  2:{ apply Forall_app. split; [exact Hiv|apply (encrypt_bytes A laws)]. }
  destruct (CodecFacts.firstn_12_app random
              (subtle_encrypt A key random (TextEncoder_encode text)) Hlen)
    as [-> ->].
  rewrite (decrypt_encrypt A laws)
    by (assumption || now apply CodecFacts.encode_wf_bytes).
  now rewrite CodecFacts.decode_encode.
Qed.


End BackupRoundTrip.


End BackupFacts.

(** ** The untouched form and the text cells of the export *)
Module FormMoreFacts.
Import Num Date Form Analytics Csv CsvSpec.

(** X25: an entry made from an untouched form has the counts 0, the
    mood 3, no tag and no focused minutes, and adding it to the list
    changes neither the totals of the planned and completed tasks nor
    the success rate. *)
Theorem blank_entry_keeps_rate (now0 now1 : Z) (entries : list entry) :
  plannedTasks (newEntry now1 (getEmptyForm now0)) = Fin 0 /\
  completedTasks (newEntry now1 (getEmptyForm now0)) = Fin 0 /\
  mood (newEntry now1 (getEmptyForm now0)) = Fin 3 /\
  tags (newEntry now1 (getEmptyForm now0)) = [] /\
  minutesFocused (newEntry now1 (getEmptyForm now0)) = Fin 0 /\
  totalPlanned (fst (addEntry now1 (getEmptyForm now0) entries))
  = totalPlanned entries /\
  totalCompleted (fst (addEntry now1 (getEmptyForm now0) entries))
  = totalCompleted entries /\
  successRate (fst (addEntry now1 (getEmptyForm now0) entries))
  = successRate entries.
Proof.
  assert (totalPlanned (fst (addEntry now1 (getEmptyForm now0) entries))
          = totalPlanned entries) as Hp by reflexivity.
  assert (totalCompleted (fst (addEntry now1 (getEmptyForm now0) entries))
          = totalCompleted entries) as Hc by reflexivity.
  do 5 (split; [reflexivity|]). split; [exact Hp|]. split; [exact Hc|].
  unfold successRate. now rewrite Hp, Hc.
Qed.

(** X26: in a row of the export each of the three free texts is a
    cell between two double quotes whose inner quotes are doubled: a
    reader that drops the outer quotes and merges the doubled ones
    gets the text back, and the number of double quotes in the cell is
    even. *)
Theorem csv_text_cells_read_back (sh : number -> jsstring) (r : entry) :
  List.Forall
    (fun cell_text : nat * jsstring =>
       undouble (removelast (tl (nth (fst cell_text) (row sh r) [])))
       = snd cell_text /\
       Nat.Even (count_occ Z.eq_dec (nth (fst cell_text) (row sh r) []) dq))
    [ (3%nat, tasksNotes r); (4%nat, wins r); (5%nat, challenges r) ].
Proof.
  assert (forall s : jsstring,
            undouble (removelast (tl ([dq] ++ replace_dq s ++ [dq]))) = s /\
            Nat.Even (count_occ Z.eq_dec ([dq] ++ replace_dq s ++ [dq]) dq))
    as Hcell.
  { intros s. cbn [app tl]. rewrite removelast_last.
    split; [apply CsvFacts.undouble_replace_dq|].
    change (dq :: replace_dq s ++ [dq]) with ([dq] ++ replace_dq s ++ [dq]).
    rewrite !count_occ_app, CsvFacts.replace_dq_count.
    exists (S (count_occ Z.eq_dec s dq)). cbn [count_occ].
    destruct (Z.eq_dec dq dq); [lia|congruence]. }
  rewrite CsvFacts.row_cells. repeat constructor; cbn [fst snd nth]; apply Hcell.
Qed.

End FormMoreFacts.

(** ** The window of the monthly report *)
Module ReportMoreFacts.
Import Date Report.

Lemma DaysInMonth_range (y m : Z) :
  0 <= m <= 11 -> 28 <= DaysInMonth y m <= 31.
Proof.
  intros Hm. unfold DaysInMonth. cbv zeta.
  assert (m = 0 \/ m = 1 \/ m = 2 \/ m = 3 \/ m = 4 \/ m = 5 \/ m = 6 \/
          m = 7 \/ m = 8 \/ m = 9 \/ m = 10 \/ m = 11) as Hcases by lia.
  destruct (DaysInYear y =? 366);
    repeat (destruct Hcases as [->|Hcases]; [vm_compute; split; discriminate|]);
    subst m; vm_compute; split; discriminate.
Qed.

(** Setting the month to the one before moves the day back by the
    length of that month; a day of the month that the month before
    does not have carries over, which the same shift covers. *)
Lemma MakeDay_previous_month (t : Z) :
  MakeDay (YearFromTime t) (MonthFromTime t - 1) (DateFromTime t) =
  Day t - DaysInMonth (YearFromTime t + (MonthFromTime t - 1) / 12)
                      ((MonthFromTime t - 1) mod 12).
Proof.
  unfold MakeDay, DaysInMonth. cbv zeta.
  pose proof (DateFacts.MonthFromTime_range t) as Hm.
  assert (Day t = DayFromYear (YearFromTime t) + DayWithinYear t) as HD
      by (unfold DayWithinYear; lia).
  unfold DateFromTime. unfold InLeapYear.
  destruct (Z.eq_dec (MonthFromTime t) 0) as [E|Hne].
  - rewrite E. change ((0 - 1) / 12) with (-1). change ((0 - 1) mod 12) with 11.
    change (11 + 1) with 12.
    pose proof (DateFacts.DayFromYear_succ (YearFromTime t + -1)) as Hs.
    replace (YearFromTime t + -1 + 1) with (YearFromTime t) in Hs by lia.
    cbn [month_start].
    assert (DaysInYear (YearFromTime t + -1) =
            365 + (if DaysInYear (YearFromTime t + -1) =? 366 then 1 else 0))
      as Hl.
    { unfold DaysInYear. now destruct (_ && _)%bool. }
    lia.
  - replace ((MonthFromTime t - 1) / 12) with 0 by euclid.
    replace ((MonthFromTime t - 1) mod 12) with (MonthFromTime t - 1) by euclid.
    rewrite Z.add_0_r.
    replace (MonthFromTime t - 1 + 1) with (MonthFromTime t) by lia. lia.
Qed.

(** X28: in a zone whose offset never changes, the window of the
    monthly report starts as many days before the time of the report
    as the calendar month before the local month of the report has,
    28 to 31 days, at the same time of day. *)
Theorem monthly_window_length (off now : Z) :
  let t := LocalTime (fixed_zone off) now in
  let days := DaysInMonth (YearFromTime t + (MonthFromTime t - 1) / 12)
                          ((MonthFromTime t - 1) mod 12) in
  start (fixed_zone off) now (js "monthly") = now - days * msPerDay /\
  28 <= days <= 31.
Proof.
  cbv zeta. split.
  - unfold start. cbv zeta.
    change (string_eqb (js "monthly") (js "weekly")) with false.
    change (string_eqb (js "monthly") (js "monthly")) with true.
    cbv iota. unfold setMonth, getMonth, LocalTime, UTC.
    cbn [fixed_zone offset_at_utc offset_at_local].
    rewrite MakeDay_previous_month.
    set (K := DaysInMonth _ _).
    replace (Day (now + off) - K) with (Day (now + off) + (- K)) by lia.
    rewrite DateFacts.MakeDate_of_time. lia.
  - apply DaysInMonth_range.
    pose proof (Z.mod_pos_bound
                  (MonthFromTime (LocalTime (fixed_zone off) now) - 1) 12).
    lia.
Qed.

End ReportMoreFacts.
